(** * ovn-heater: a shallow embedding of the OVN scale-test driver

    The development follows the Python sources of [ovn-tester]:
    - [ovn_utils.py]   : dual-stack address helpers, the NB transaction with
                         its [sync] barrier, the UUID-retry loops and the
                         batched port-group / address-set additions;
    - [ovn_tester.py]  : the default node remotes;
    - [ovn_workload.py]: central node commands, per-worker port provisioning
                         and the namespace model.

    Python values are modelled as the code uses them: integers as [Z],
    [None]-able attributes as [option], exceptions as the [Raise] branch of
    [result], objects mutated in place by explicit state passing. *)

From Stdlib Require Import ZArith List String Ascii Lia DecimalString.
From stdpp Require Import gmap strings list fin_maps.

Import ListNotations.
Local Open Scope string_scope.
Local Open Scope list_scope.
Local Open Scope Z_scope.

(** ** Python-level helpers *)

Module Py.

(** The exceptions that the modelled code raises or catches. *)
Inductive exn : Type :=
| AttributeError
| StopIteration
| AddrFormatError
| OvnInvalidConfigException
| UUIDTransactionError
| TimeoutException.

(** A computation either returns a value or raises. *)
Inductive result (A : Type) : Type :=
| Ok (a : A)
| Raise (e : exn).
Arguments Ok {A} a.
Arguments Raise {A} e.

Definition bind {A B} (r : result A) (k : A -> result B) : result B :=
  match r with
  | Ok a => k a
  | Raise e => Raise e
  end.

(** [str(n)] for a non-negative Python int. *)
Definition str_N (n : N) : string := NilZero.string_of_uint (N.to_uint n).

(** [str(z)] for a Python int. *)
Definition str_int (z : Z) : string :=
  match z with
  | Zneg p => "-" +:+ str_N (Npos p)
  | _ => str_N (Z.to_N z)
  end.

(** [sep.join(l)] *)
Fixpoint join (sep : string) (l : list string) : string :=
  match l with
  | [] => ""
  | [x] => x
  | x :: rest => x +:+ sep +:+ join sep rest
  end.

(** [range(0, n)] as the list of its values. *)
Definition range (n : Z) : list Z := map Z.of_nat (seq 0 (Z.to_nat n)).

(** [range(0, n, step)] for a positive step, as list indexes. *)
Definition range_step (n step : nat) : list nat :=
  map (fun k => (k * step)%nat) (seq 0 ((n + step - 1) / step)).

(** [l[i : j]] for [0 <= i <= j]. *)
Definition slice {A} (l : list A) (i j : nat) : list A :=
  firstn (j - i) (skipn i l).

(** ASCII part of [str.lower()]. *)
Definition lower_ascii (c : ascii) : ascii :=
  let n := nat_of_ascii c in
  if ((65 <=? n) && (n <=? 90))%nat then ascii_of_nat (n + 32) else c.

Fixpoint lower (s : string) : string :=
  match s with
  | EmptyString => EmptyString
  | String c r => String (lower_ascii c) (lower r)
  end.

End Py.

Import Py.

Declare Scope py_scope.
Delimit Scope py_scope with py.
Notation "'let*' x ':=' c1 'in' c2" := (Py.bind c1 (fun x => c2))
  (at level 10, x pattern, c1 at level 100, c2 at level 200) : py_scope.
Local Open Scope py_scope.

(** ** The parts of [netaddr] that the tester relies on *)

Module Netaddr.

Inductive ipver : Type := V4 | V6.

Definition width (v : ipver) : Z :=
  match v with V4 => 32 | V6 => 128 end.

Definition max_int (v : ipver) : Z := 2 ^ width v - 1.

(** [netaddr.IPAddress]: an integer value tagged with its family. *)
Record IPAddress : Type := mkIP { ip_version : ipver; ip_value : Z }.

(** [netaddr.IPAddress(v)] from an integer, the family being inferred
    from the magnitude of [v]. *)
Definition IPAddress_of_int (v : Z) : result IPAddress :=
  if (0 <=? v) && (v <=? max_int V4) then Ok (mkIP V4 v)
  else if (max_int V4 <? v) && (v <=? max_int V6) then Ok (mkIP V6 v)
  else Raise AddrFormatError.

(** [netaddr.IPNetwork]: the address as written, and the prefix length. *)
Record IPNetwork : Type :=
  mkNet { net_version : ipver; net_ip : Z; prefixlen : Z }.

Definition hostmask (n : IPNetwork) : Z :=
  Z.shiftl 1 (width (net_version n) - prefixlen n) - 1.

Definition first (n : IPNetwork) : Z :=
  Z.land (net_ip n) (Z.lxor (max_int (net_version n)) (hostmask n)).

Definition last (n : IPNetwork) : Z :=
  Z.lor (net_ip n) (hostmask n).

Definition size (n : IPNetwork) : Z := last n - first n + 1.

(** The generator returned by [iter_hosts()] (an [iter_iprange]): the
    next value to yield and the last one. *)
Record ip_gen : Type :=
  mkGen { gen_version : ipver; gen_cur : Z; gen_stop : Z }.

(** [IPNetwork.iter_hosts()]: the network address is skipped, and for
    IPv4 the broadcast address too; networks of fewer than four
    addresses yield all of them. *)
Definition iter_hosts (n : IPNetwork) : ip_gen :=
  if 4 <=? size n then
    mkGen (net_version n) (first n + 1)
          (match net_version n with V4 => last n - 1 | V6 => last n end)
  else mkGen (net_version n) (first n) (last n).

(** [next(gen)] *)
Definition next (g : ip_gen) : result (IPAddress * ip_gen) :=
  if gen_cur g <=? gen_stop g
  then Ok (mkIP (gen_version g) (gen_cur g),
           mkGen (gen_version g) (gen_cur g + 1) (gen_stop g))
  else Raise StopIteration.

(** Dotted-quad rendering of an IPv4 value. *)
Definition str_v4 (v : Z) : string :=
  str_int (Z.shiftr v 24 mod 256) +:+ "." +:+
  str_int (Z.shiftr v 16 mod 256) +:+ "." +:+
  str_int (Z.shiftr v 8 mod 256) +:+ "." +:+
  str_int (v mod 256).

Section Str.
(** The compact textual form of an IPv6 value is left to the library. *)
Variable str_v6 : Z -> string.

(** [str(ip)] *)
Definition IPAddress_str (a : IPAddress) : string :=
  match ip_version a with
  | V4 => str_v4 (ip_value a)
  | V6 => str_v6 (ip_value a)
  end.
End Str.

End Netaddr.

Import Netaddr.

(** ** [ovn_utils.py] *)

Module OvnUtils.

(** Row identifiers handed out by the database. *)
Abbreviation UUID := N.

Definition DEFAULT_CTL_TIMEOUT : Z := 60.
Definition MAX_RETRY : nat := 5.

(** *** Dual-stack addresses *)

Record DualStackIP : Type :=
  mkDualStackIP {
    ip4 : option IPAddress;
    plen4 : option Z;
    ip6 : option IPAddress;
    plen6 : option Z
  }.

Record DualStackSubnet : Type :=
  mkDualStackSubnet { n4 : option IPNetwork; n6 : option IPNetwork }.

(** [DualStackSubnet.forward]: the [index]-th address from the low end
    of each family present. *)
Definition forward (self : DualStackSubnet) (index : Z) : result DualStackIP :=
  match n4 self, n6 self with
  | Some net4, Some net6 =>
      let* a4 := IPAddress_of_int (first net4 + index) in
      let* a6 := IPAddress_of_int (first net6 + index) in
      Ok (mkDualStackIP (Some a4) (Some (prefixlen net4))
                        (Some a6) (Some (prefixlen net6)))
  | Some net4, None =>
      let* a4 := IPAddress_of_int (first net4 + index) in
      Ok (mkDualStackIP (Some a4) (Some (prefixlen net4)) None None)
  | None, Some net6 =>
      let* a6 := IPAddress_of_int (first net6 + index) in
      Ok (mkDualStackIP None None (Some a6) (Some (prefixlen net6)))
  | None, None => Raise OvnInvalidConfigException
  end.

(** [DualStackSubnet.reverse]: the [index]-th address from the high end
    of each family present. *)
Definition reverse (self : DualStackSubnet) (index : Z) : result DualStackIP :=
  match n4 self, n6 self with
  | Some net4, Some net6 =>
      let* a4 := IPAddress_of_int (last net4 - index) in
      let* a6 := IPAddress_of_int (last net6 - index) in
      Ok (mkDualStackIP (Some a4) (Some (prefixlen net4))
                        (Some a6) (Some (prefixlen net6)))
  | Some net4, None =>
      let* a4 := IPAddress_of_int (last net4 - index) in
      Ok (mkDualStackIP (Some a4) (Some (prefixlen net4)) None None)
  | None, Some net6 =>
      let* a6 := IPAddress_of_int (last net6 - index) in
      Ok (mkDualStackIP None None (Some a6) (Some (prefixlen net6)))
  | None, None => Raise OvnInvalidConfigException
  end.

(** *** The NB transaction and its [sync] barrier *)

(** The three sequence numbers of the single [NB_Global] row. *)
Record NB_Global : Type := mkNB { nb_cfg : Z; sb_cfg : Z; hv_cfg : Z }.

Inductive log_record : Type :=
| LogWarning (msg : string)
| LogException (msg : string).

(** The fields of [NBTransaction] that the barrier reads. *)
Record NBTransaction : Type :=
  mkNBTransaction { timeout : Z; check_error : bool; wait_type : option string }.

(** Truth value of an optional string: [None] and the empty string are
    false. *)
Definition truthy (s : option string) : bool :=
  match s with
  | Some (String _ _) => true
  | _ => false
  end.

(** [s == lit] for an optional string and a literal. *)
Definition str_eq (s : option string) (lit : string) : bool :=
  match s with
  | Some x => String.eqb x lit
  | None => false
  end.

(** [NBTransaction.__init__]: the wait type is lower-cased, and anything
    but [sb] and [hv] is dropped with a warning. *)
Definition NBTransaction_init (tmo : Z) (chk : bool) (wait : option string)
  : NBTransaction * list log_record :=
  let wt := if truthy wait then option_map lower wait else None in
  if truthy wt && negb (str_eq wt "sb") && negb (str_eq wt "hv") then
    (mkNBTransaction tmo chk None,
     [LogWarning ("Unrecognized wait type " +:+ default "" wt +:+ ". Ignoring")])
  else (mkNBTransaction tmo chk wt, []).

(** The low-level transaction handed to the hooks: whether an increment
    of [nb_cfg] is staged, and after the commit its new value. *)
Record IdlTxn : Type :=
  mkIdlTxn { inc_nb_cfg : bool; increment_new_value : Z }.

(** [NBTransaction.pre_commit] *)
Definition pre_commit (self : NBTransaction) (txn : IdlTxn) : IdlTxn :=
  if truthy (wait_type self)
  then mkIdlTxn true (increment_new_value txn)
  else txn.

(** [NBTransaction.nb_has_completed], on the [NB_Global] row of the
    local replica. *)
Definition nb_has_completed (self : NBTransaction) (nb : NB_Global)
           (next_cfg : Z) : bool :=
  if negb (truthy (wait_type self)) then true
  else
    let cur_cfg :=
      if str_eq (wait_type self) "sb" then sb_cfg nb
      else Z.min (sb_cfg nb) (hv_cfg nb) in
    next_cfg <=? cur_cfg.

(** One turn of the polling loop as the transaction sees it: the time
    elapsed since the commit started when the loop condition is tested,
    and the [NB_Global] row in the replica once [idl.run()] has
    processed the pending updates. *)
Record Tick : Type := mkTick { elapsed : Z; row : NB_Global }.

(** [Transaction.timeout_exceeded] of the base class. *)
Definition timeout_exceeded (self : NBTransaction) (tk : Tick) : bool :=
  timeout self <? elapsed tk.

(** How a call ends: it returns or raises, or it is still blocked in
    the poller when the recorded observations run out. *)
Inductive outcome : Type :=
| Returned
| Raised (e : exn)
| Blocked.

(** The [while ... else] loop of [do_post_commit]; [polls] counts the
    calls of [idl.run()]. *)
Fixpoint poll_loop (self : NBTransaction) (next_cfg : Z) (env : list Tick)
         (polls : nat) : outcome * nat :=
  match env with
  | [] => (Blocked, polls)
  | tk :: env' =>
      if timeout_exceeded self tk then (Raised TimeoutException, polls)
      else if nb_has_completed self (row tk) next_cfg
           then (Returned, S polls)
           else poll_loop self next_cfg env' (S polls)
  end.

(** [NBTransaction.do_post_commit] *)
Definition do_post_commit (self : NBTransaction) (txn : IdlTxn)
           (env : list Tick) : outcome * nat :=
  if negb (truthy (wait_type self)) then (Returned, 0%nat)
  else
    let next_cfg := increment_new_value txn in
    poll_loop self next_cfg env 0.

(** [NBTransaction.post_commit]: a timeout of the barrier is caught and
    logged. *)
Definition post_commit (self : NBTransaction) (txn : IdlTxn)
           (env : list Tick) : outcome * nat * list log_record :=
  match do_post_commit self txn env with
  | (Raised TimeoutException, polls) =>
      (Returned, polls, [LogException "Transaction timed out"])
  | (o, polls) => (o, polls, [])
  end.

(** The outcome of a committed transaction: how the call ended, the
    value of [nb_cfg] in the NB database afterwards, the number of
    barrier polls and what was logged. *)
Record CommitRun : Type :=
  mkCommitRun {
    run_outcome : outcome;
    run_nb_cfg : Z;
    run_polls : nat;
    run_log : list log_record
  }.

(** Modelled from the spec: the commit driver of the base transaction
    class, which is library code outside the sources.  It stages the
    mutations through [pre_commit], commits them atomically to the NB
    database and then runs [post_commit]. *)
Definition commit (self : NBTransaction) (db_nb_cfg : Z) (env : list Tick)
  : CommitRun :=
  let staged := pre_commit self (mkIdlTxn false db_nb_cfg) in
  let db_nb_cfg' := if inc_nb_cfg staged then db_nb_cfg + 1 else db_nb_cfg in
  let txn := mkIdlTxn (inc_nb_cfg staged) db_nb_cfg' in
  match post_commit self txn env with
  | (o, polls, lg) => mkCommitRun o db_nb_cfg' polls lg
  end.

(** [OvnNbctl.sync]: an empty transaction committed with the given wait
    type. *)
Definition sync (wait : option string) (tmo : Z) (db_nb_cfg : Z)
           (env : list Tick) : CommitRun :=
  match NBTransaction_init tmo true wait with
  | (t, lg0) =>
      let r := commit t db_nb_cfg env in
      mkCommitRun (run_outcome r) (run_nb_cfg r) (run_polls r)
                  (lg0 ++ run_log r)
  end.

(** *** UUID retry *)

Section UuidRetry.
(** The database session as the retry loops see it: commands are
    executed against a state of the world, and reading the result
    afterwards either gives a value or raises [AttributeError]
    ([None]). *)
Variables World Cmd : Type.
Variable execute : Cmd -> World -> World * option UUID.

(** The [for _ in range(n)] loop of [uuid_transaction]; [tr] is the
    list of commands executed so far. *)
Fixpoint uuid_transaction_loop (n : nat) (func : bool -> Cmd) (w : World)
         (tr : list Cmd) : World * list Cmd * result UUID :=
  match n with
  | O => (w, tr, Raise UUIDTransactionError)
  | S n' =>
      let cmd := func true in
      match execute cmd w with
      | (w', Some uuid) => (w', tr ++ [cmd], Ok uuid)
      | (w', None) => uuid_transaction_loop n' func w' (tr ++ [cmd])
      end
  end.

(** [OvnNbctl.uuid_transaction] *)
Definition uuid_transaction (func : bool -> Cmd) (w : World)
  : World * list Cmd * result UUID :=
  uuid_transaction_loop MAX_RETRY func w [].

(** The loop of [db_create_transaction]: [create] is the command built
    by [db_create(table, **columns)], [get_func] builds the lookup. *)
Fixpoint db_create_transaction_loop (n : nat) (create : Cmd)
         (get_func : unit -> Cmd) (w : World) (tr : list Cmd)
  : World * list Cmd * result UUID :=
  match n with
  | O => (w, tr, Raise UUIDTransactionError)
  | S n' =>
      match execute create w with
      | (w1, Some res) => (w1, tr ++ [create], Ok res)
      | (w1, None) =>
          let cmd := get_func tt in
          match execute cmd w1 with
          | (w2, Some res) => (w2, tr ++ [create; cmd], Ok res)
          | (w2, None) =>
              db_create_transaction_loop n' create get_func w2
                                         (tr ++ [create; cmd])
          end
      end
  end.

(** [OvnNbctl.db_create_transaction] *)
Definition db_create_transaction (create : Cmd) (get_func : unit -> Cmd)
           (w : World) : World * list Cmd * result UUID :=
  db_create_transaction_loop MAX_RETRY create get_func w [].

(** Replaying a list of commands: the world reached and the result
    read after each of them. *)
Fixpoint replay (cmds : list Cmd) (w : World) : World * list (option UUID) :=
  match cmds with
  | [] => (w, [])
  | c :: rest =>
      match execute c w with
      | (w', r) =>
          match replay rest w' with
          | (w'', rs) => (w'', r :: rs)
          end
      end
  end.
End UuidRetry.

Arguments uuid_transaction_loop {World Cmd} execute n func w tr.
Arguments uuid_transaction {World Cmd} execute func w.
Arguments db_create_transaction_loop {World Cmd} execute n create get_func w tr.
Arguments db_create_transaction {World Cmd} execute create get_func w.
Arguments replay {World Cmd} execute cmds w.

(** *** Logical entities and the NB store *)

(** What the [ip]-like fields of a port can hold: nothing, the literal
    [unknown], or an address. *)
Inductive addr_field : Type :=
| NoAddr
| Unknown
| Addr (a : IPAddress).

Record LSPort : Type :=
  mkLSPort {
    lsp_name : string;
    lsp_mac : option string;
    lsp_ip : addr_field;
    lsp_plen : option Z;
    lsp_gw : addr_field;
    lsp_ext_gw : addr_field;
    lsp_ip6 : addr_field;
    lsp_plen6 : option Z;
    lsp_gw6 : addr_field;
    lsp_ext_gw6 : addr_field;
    lsp_metadata : option Z;   (* the owning worker, by its id *)
    lsp_passive : bool;
    lsp_uuid : UUID
  }.

Record PortGroup : Type := mkPortGroup { pg_name : string }.
Record AddressSet : Type := mkAddressSet { as_name : string }.

(** The transactions that the membership helpers send. *)
Inductive NbTxn : Type :=
| PgAdd (pg : string)
| AddressSetAdd (aset : string)
| PgAddPorts (pg : string) (ports : list UUID)
| AddressSetAddAddresses (aset : string) (addrs : list string).

(** The NB tables touched by the namespace model, and the transactions
    executed so far (oldest first). *)
Record NbDb : Type :=
  mkNbDb {
    port_groups : gmap string (gset UUID);
    address_sets : gmap string (gset string);
    txn_log : list NbTxn
  }.

(** Executing a transaction: a row is created empty unless it exists;
    the named row gains the members, and a transaction that names a
    missing row changes nothing. *)
Definition execute_txn (t : NbTxn) (db : NbDb) : NbDb :=
  match t with
  | PgAdd pg =>
      mkNbDb (match port_groups db !! pg with
              | Some _ => port_groups db
              | None => <[pg := ∅]> (port_groups db)
              end)
             (address_sets db)
             (txn_log db ++ [t])
  | AddressSetAdd aset =>
      mkNbDb (port_groups db)
             (match address_sets db !! aset with
              | Some _ => address_sets db
              | None => <[aset := ∅]> (address_sets db)
              end)
             (txn_log db ++ [t])
  | PgAddPorts pg ports =>
      mkNbDb (alter (fun s => s ∪ list_to_set ports) pg (port_groups db))
             (address_sets db)
             (txn_log db ++ [t])
  | AddressSetAddAddresses aset addrs =>
      mkNbDb (port_groups db)
             (alter (fun s => s ∪ list_to_set addrs) aset (address_sets db))
             (txn_log db ++ [t])
  end.

(** [OvnNbctl.port_group_create] *)
Definition port_group_create (name : string) (db : NbDb) : PortGroup * NbDb :=
  (mkPortGroup name, execute_txn (PgAdd name) db).

(** [OvnNbctl.address_set_create] *)
Definition address_set_create (name : string) (db : NbDb) : AddressSet * NbDb :=
  (mkAddressSet name, execute_txn (AddressSetAdd name) db).

(** [OvnNbctl.port_group_add]: one port, one transaction. *)
Definition port_group_add (pg : PortGroup) (lport : LSPort) (db : NbDb) : NbDb :=
  execute_txn (PgAddPorts (pg_name pg) [lsp_uuid lport]) db.

Definition MAX_PORTS_IN_BATCH : nat := 500.
Definition MAX_ADDRS_IN_BATCH : nat := 500.

(** [OvnNbctl.port_group_add_ports] *)
Definition port_group_add_ports (pg : PortGroup) (lports : list LSPort)
           (db : NbDb) : NbDb :=
  fold_left
    (fun db i =>
       let lports_slice := slice lports i (i + MAX_PORTS_IN_BATCH) in
       let port_uuids := map lsp_uuid lports_slice in
       execute_txn (PgAddPorts (pg_name pg) port_uuids) db)
    (range_step (length lports) MAX_PORTS_IN_BATCH) db.

(** [OvnNbctl.address_set_add_addrs]; [str] is the conversion applied
    to each element. *)
Definition address_set_add_addrs {A} (str : A -> string)
           (addr_set : AddressSet) (addrs : list A) (db : NbDb) : NbDb :=
  fold_left
    (fun db i =>
       let addrs_slice := map str (slice addrs i (i + MAX_ADDRS_IN_BATCH)) in
       execute_txn (AddressSetAddAddresses (as_name addr_set) addrs_slice) db)
    (range_step (length addrs) MAX_ADDRS_IN_BATCH) db.

End OvnUtils.

Import OvnUtils.

(** ** [ovn_tester.py] *)

Module OvnTester.

Section Remotes.
Variable str_v6 : Z -> string.

(** The [for _ in range(0, skip): next(ip_gen)] loop. *)
Fixpoint skip_hosts (n : nat) (g : ip_gen) : result ip_gen :=
  match n with
  | O => Ok g
  | S n' =>
      let* (_, g') := next g in
      skip_hosts n' g'
  end.

(** [[proto + str(next(ip_gen)) + ":6642" for _ in ip_range]], for a
    range of [n] values. *)
Fixpoint take_remotes (proto : string) (n : nat) (g : ip_gen)
  : result (list string) :=
  match n with
  | O => Ok []
  | S n' =>
      let* (ip, g') := next g in
      let* rest := take_remotes proto n' g' in
      Ok ((proto +:+ IPAddress_str str_v6 ip +:+ ":6642") :: rest)
  end.

(** [calculate_default_node_remotes] *)
Definition calculate_default_node_remotes (net : IPNetwork)
           (clustered : bool) (n_relays : Z) (enable_ssl : bool)
  : result string :=
  let ip_gen := iter_hosts net in
  let* (ip_gen, ip_range) :=
    if 0 <? n_relays then
      let skip := if clustered then 3%nat else 1%nat in
      let* g := skip_hosts skip ip_gen in
      Ok (g, Z.to_nat n_relays)
    else Ok (ip_gen, if clustered then 3%nat else 1%nat) in
  let* remotes :=
    if enable_ssl then take_remotes "ssl:" ip_range ip_gen
    else take_remotes "tcp:" ip_range ip_gen in
  Ok (join "," remotes).
End Remotes.

(** The container names chosen by [create_nodes]. *)
Definition db_containers (clustered_db : bool) : list string :=
  if clustered_db
  then ["ovn-central-1"; "ovn-central-2"; "ovn-central-3"]
  else ["ovn-central"].

Definition relay_containers (n_relays : Z) : list string :=
  map (fun i => "ovn-relay-" +:+ str_int (i + 1)) (range n_relays).

End OvnTester.

Import OvnTester.

(** ** [ovn_workload.py] *)

Module OvnWorkload.

(** *** Central node *)

Record CentralNode : Type :=
  mkCentralNode {
    cn_db_containers : list string;
    cn_relay_containers : list string
  }.

(** [CentralNode.enable_trim_on_compaction]: the commands run on the
    physical node, in order. *)
Definition enable_trim_on_compaction (self : CentralNode) : list string :=
  flat_map
    (fun db_container =>
       [ ("docker exec " +:+ db_container +:+ " ovs-appctl ") +:+
         "-t /run/ovn/ovnnb_db.ctl " +:+
         "ovsdb-server/memory-trim-on-compaction " +:+
         "on";
         ("docker exec " +:+ db_container +:+ " ovs-appctl ") +:+
         "-t /run/ovn/ovnsb_db.ctl " +:+
         "ovsdb-server/memory-trim-on-compaction " +:+
         "on" ])
    (cn_db_containers self)
  ++
  map
    (fun relay_container =>
       ("docker exec " +:+ relay_container) +:+
       "ovs-appctl -t " +:+
       "/run/ovn/ovnsb_db.ctl " +:+
       "ovsdb-server/memory-trim-on-compaction " +:+
       "on")
    (cn_relay_containers self).

(** *** Worker node *)

(** What [bind_port] asks of the local switch. *)
Inductive vsctl_cmd : Type :=
| AddPort (port bridge ifaceid : string)
| BindVmPort (port : string).

Record WorkerNode : Type :=
  mkWorkerNode {
    container : string;
    int_net : IPNetwork;
    ext_net : IPNetwork;
    gw_net : IPNetwork;
    id : Z;
    switch : option string;
    lports : list LSPort;
    next_lport_index : Z;
    vsctl_log : list vsctl_cmd
  }.

(** [WorkerNode.__init__] *)
Definition WorkerNode_init (container : string)
           (int_net ext_net gw_net : IPNetwork) (unique_id : Z) : WorkerNode :=
  mkWorkerNode container int_net ext_net gw_net unique_id None [] 0 [].

(** Modelled from the spec: the NB client that the worker calls, with a
    flat address, prefix length and gateways, is not the one of the
    sources.  Its [ls_port_add] creates the switch port and returns the
    handle built from the arguments, with the UUID the database gave. *)
Definition ls_port_add (uuid : UUID) (lswitch : option string) (name : string)
           (mac : option string) (ip : addr_field) (plen : option Z)
           (gw ext_gw : addr_field) (metadata : option Z)
           (passive security : bool) : LSPort :=
  mkLSPort name mac ip plen gw ext_gw NoAddr None NoAddr NoAddr
           metadata passive uuid.

Section Provision.
(** The outside world of a provisioning run: the [n]-th random MAC
    drawn and the UUID given to the [n]-th port created. *)
Variable rand_mac : nat -> string.
Variable db_uuid : nat -> UUID.

(** [WorkerNode.provision_port]; [created] counts the ports created
    through the cluster's NB client so far. *)
Definition provision_port (self : WorkerNode) (created : nat) (passive : bool)
  : result (LSPort * WorkerNode * nat) :=
  let name := "lp-" +:+ str_int (id self) +:+ "-" +:+
              str_int (next_lport_index self) in
  let* ip := IPAddress_of_int (first (int_net self) + next_lport_index self + 1) in
  let plen := prefixlen (int_net self) in
  let* gw := IPAddress_of_int (last (int_net self) - 1) in
  let* ext_gw := IPAddress_of_int (last (ext_net self) - 2) in
  let lport := ls_port_add (db_uuid created) (switch self) name
                           (Some (rand_mac created))
                           (Addr ip) (Some plen) (Addr gw) (Addr ext_gw)
                           (Some (id self)) passive true in
  Ok (lport,
      mkWorkerNode (container self) (int_net self) (ext_net self)
                   (gw_net self) (id self) (switch self)
                   (lports self ++ [lport])
                   (next_lport_index self + 1)
                   (vsctl_log self),
      S created).

(** [WorkerNode.bind_port] *)
Definition bind_port (self : WorkerNode) (port : LSPort) : WorkerNode :=
  let cmds :=
    AddPort (lsp_name port) "br-int" (lsp_name port) ::
    (if negb (lsp_passive port) then [BindVmPort (lsp_name port)] else []) in
  mkWorkerNode (container self) (int_net self) (ext_net self)
               (gw_net self) (id self) (switch self) (lports self)
               (next_lport_index self) (vsctl_log self ++ cmds).

(** The list comprehension of [provision_ports]. *)
Fixpoint provision_port_list (n : nat) (self : WorkerNode) (created : nat)
         (passive : bool) : result (list LSPort * WorkerNode * nat) :=
  match n with
  | O => Ok ([], self, created)
  | S n' =>
      let* (p, self1, created1) := provision_port self created passive in
      let* (ps, self2, created2) :=
        provision_port_list n' self1 created1 passive in
      Ok (p :: ps, self2, created2)
  end.

(** [WorkerNode.provision_ports] *)
Definition provision_ports (self : WorkerNode) (created : nat)
           (n_ports : Z) (passive : bool)
  : result (list LSPort * WorkerNode * nat) :=
  let* (ports, self1, created1) :=
    provision_port_list (Z.to_nat n_ports) self created passive in
  Ok (ports, fold_left bind_port ports self1, created1).
End Provision.

(** *** Namespaces *)

Record Namespace : Type :=
  mkNamespace {
    ns_name : string;
    ns_ports : list LSPort;
    enforcing : bool;
    pg_def_deny_igr : PortGroup;
    pg_def_deny_egr : PortGroup;
    pg : PortGroup;
    addr_set : AddressSet;
    sub_as : list AddressSet;
    sub_pg : list PortGroup
  }.

(** [create_namespace]: a fresh namespace with its three port groups
    and its address set created in the NB; [n_ns] is the cluster's
    namespace counter. *)
Definition create_namespace (n_ns : Z) (name : string) (db : NbDb)
  : Namespace * Z * NbDb :=
  let (igr, db1) := port_group_create ("pg_deny_igr_" +:+ name) db in
  let (egr, db2) := port_group_create ("pg_deny_egr_" +:+ name) db1 in
  let (g, db3) := port_group_create ("pg_" +:+ name) db2 in
  let (aset, db4) := address_set_create ("as_" +:+ name) db3 in
  (mkNamespace name [] false igr egr g aset [] [], n_ns + 1, db4).

Section Namespaces.
Variable str_v6 : Z -> string.

(** [str(p.ip)] *)
Definition str_addr (a : addr_field) : string :=
  match a with
  | NoAddr => "None"
  | Unknown => "unknown"
  | Addr ip => IPAddress_str str_v6 ip
  end.

(** [Namespace.add_ports] *)
Definition add_ports (self : Namespace) (ports : list LSPort) (db : NbDb)
  : Namespace * NbDb :=
  let self' :=
    mkNamespace (ns_name self) (ns_ports self ++ ports) (enforcing self)
                (pg_def_deny_igr self) (pg_def_deny_egr self) (pg self)
                (addr_set self) (sub_as self) (sub_pg self) in
  let db1 :=
    address_set_add_addrs (fun a : string => a) (addr_set self')
                          (map (fun p => str_addr (lsp_ip p)) ports) db in
  if enforcing self' then
    let db2 := port_group_add_ports (pg_def_deny_igr self') ports db1 in
    let db3 := port_group_add_ports (pg_def_deny_egr self') ports db2 in
    let db4 := port_group_add_ports (pg self') ports db3 in
    (self', db4)
  else (self', db1).
End Namespaces.

(** [Namespace.enforce] *)
Definition enforce (self : Namespace) (db : NbDb) : Namespace * NbDb :=
  if enforcing self then (self, db)
  else
    let self' :=
      mkNamespace (ns_name self) (ns_ports self) true
                  (pg_def_deny_igr self) (pg_def_deny_egr self) (pg self)
                  (addr_set self) (sub_as self) (sub_pg self) in
    let db1 := port_group_add_ports (pg_def_deny_igr self') (ns_ports self') db in
    let db2 := port_group_add_ports (pg_def_deny_egr self') (ns_ports self') db1 in
    let db3 := port_group_add_ports (pg self') (ns_ports self') db2 in
    (self', db3).

End OvnWorkload.

Import OvnWorkload.

(** ** A flaky NB server, for exercising the retry loops

    A small double of the database: rows are named and carry a UUID;
    a create in idempotent mode finds the row when it exists.  A commit
    whose turn in [faults] is [true] is applied but its reply is lost, as
    happens across a leadership change. *)

Module FlakyNb.

Inductive cmd : Type :=
| LrAdd (name : string) (may_exist : bool)
| DbCreate (table name : string)
| DbGet (table name : string).

Record world : Type :=
  mkWorld {
    rows : list (string * UUID);
    next_uuid : UUID;
    faults : list bool
  }.

Fixpoint find_row (name : string) (rs : list (string * UUID)) : option UUID :=
  match rs with
  | [] => None
  | (n, u) :: rest => if String.eqb n name then Some u else find_row name rest
  end.

Definition reply (w : world) (u : option UUID) : option UUID :=
  match faults w with
  | true :: _ => None
  | _ => u
  end.

Definition insert_row (name : string) (w : world) : world * option UUID :=
  (mkWorld (rows w ++ [(name, next_uuid w)]) (next_uuid w + 1)%N
           (tail (faults w)),
   reply w (Some (next_uuid w))).

Definition execute (c : cmd) (w : world) : world * option UUID :=
  match c with
  | LrAdd name may_exist =>
      match find_row name (rows w), may_exist with
      | Some u, true =>
          (mkWorld (rows w) (next_uuid w) (tail (faults w)),
           reply w (Some u))
      | _, _ => insert_row name w
      end
  | DbCreate _ name => insert_row name w
  | DbGet _ name =>
      (mkWorld (rows w) (next_uuid w) (tail (faults w)),
       reply w (find_row name (rows w)))
  end.

End FlakyNb.

(** ** Further operations of [ovn_utils.py] *)

Module OvnNbctl.

Record LRouter : Type := mkLRouter { lr_uuid : UUID; lr_name : string }.

Record LRPort : Type :=
  mkLRPort { lrp_name : string; lrp_mac : string; lrp_ip : DualStackIP }.

Record LSwitch : Type :=
  mkLSwitch {
    ls_uuid : UUID;
    ls_name : string;
    ls_cidr : option IPNetwork;
    ls_cidr6 : option IPNetwork
  }.

(** The value of a column passed to a row-level command. *)
Inductive column : Type :=
| ColStr (s : string)
| ColMap (m : list (string * string)).

(** The NB commands that the operations below execute. *)
Inductive NbCmd : Type :=
| LrpAdd (router : UUID) (name mac : string) (networks : list string)
| LspAdd (switch : UUID) (name : string) (may_exist : bool)
         (columns : list (string * column))
| LrRouteAdd (router : UUID) (prefix : IPNetwork) (nexthop : IPAddress)
             (policy : string)
| LrNatAdd (router : UUID) (nat_type : string) (external_ip : IPAddress)
           (logical_net : IPNetwork).

(** Truth value of an optional address: [None] is false, and so is the
    address of value zero. *)
Definition ip_true (a : option IPAddress) : bool :=
  match a with
  | Some x => negb (ip_value x =? 0)
  | None => false
  end.

(** Truth value of an optional integer: [None] and [0] are false. *)
Definition int_true (z : option Z) : bool :=
  match z with
  | Some v => negb (v =? 0)
  | None => false
  end.

(** Truth value of an optional object without a length: only [None] is
    false. *)
Definition obj_true {A} (o : option A) : bool :=
  match o with
  | Some _ => true
  | None => false
  end.

(** [OvnNbctl.route_add]: the commands executed, in order. *)
Definition route_add (router : LRouter) (network : DualStackSubnet)
           (gw : DualStackIP) (policy : string) : list NbCmd :=
  (match n4 network, ip4 gw with
   | Some net, Some a =>
       if ip_true (Some a)
       then [LrRouteAdd (lr_uuid router) net a policy] else []
   | _, _ => []
   end) ++
  (match n6 network, ip6 gw with
   | Some net, Some a =>
       if ip_true (Some a)
       then [LrRouteAdd (lr_uuid router) net a policy] else []
   | _, _ => []
   end).

(** [OvnNbctl.nat_add]: the commands executed, in order. *)
Definition nat_add (router : LRouter) (external_ip : DualStackIP)
           (logical_net : DualStackSubnet) (nat_type : string) : list NbCmd :=
  (match ip4 external_ip, n4 logical_net with
   | Some a, Some net =>
       if ip_true (Some a)
       then [LrNatAdd (lr_uuid router) nat_type a net] else []
   | _, _ => []
   end) ++
  (match ip6 external_ip, n6 logical_net with
   | Some a, Some net =>
       if ip_true (Some a)
       then [LrNatAdd (lr_uuid router) nat_type a net] else []
   | _, _ => []
   end).

Section Ports.
Variable str_v6 : Z -> string.

(** [f'{ip}/{plen}'] *)
Definition cidr (a : IPAddress) (plen : Z) : string :=
  IPAddress_str str_v6 a +:+ "/" +:+ str_int plen.

(** The [networks] list built by [lr_port_add]. *)
Definition lrp_networks (dual_ip : DualStackIP) : list string :=
  (match ip4 dual_ip, plen4 dual_ip with
   | Some a, Some l =>
       if ip_true (Some a) && int_true (Some l) then [cidr a l] else []
   | _, _ => []
   end) ++
  (match ip6 dual_ip, plen6 dual_ip with
   | Some a, Some l =>
       if ip_true (Some a) && int_true (Some l) then [cidr a l] else []
   | _, _ => []
   end).

(** [OvnNbctl.lr_port_add]: the command executed and the handle; without
    a [dual_ip] the first attribute read fails. *)
Definition lr_port_add (router : LRouter) (name mac : string)
           (dual_ip : option DualStackIP) : result (NbCmd * LRPort) :=
  match dual_ip with
  | None => Raise AttributeError
  | Some d =>
      Ok (LrpAdd (lr_uuid router) name mac (lrp_networks d),
          mkLRPort name mac d)
  end.

(** The [addresses] list built by [ls_port_add], before it is joined. *)
Definition lsp_address_list (mac : option string) (ip : option DualStackIP)
           (localnet : bool) : list string :=
  (if truthy mac then [default "" mac] else []) ++
  (if localnet then ["unknown"] else []) ++
  (match ip with
   | Some d =>
       (match ip4 d with
        | Some a => if ip_true (Some a) then [IPAddress_str str_v6 a] else []
        | None => []
        end) ++
       (match ip6 d with
        | Some a => if ip_true (Some a) then [IPAddress_str str_v6 a] else []
        | None => []
        end)
   | None => []
   end).

(** The [columns] dictionary built by [ls_port_add], in insertion order. *)
Definition lsp_columns (router_port : option LRPort) (mac : option string)
           (ip : option DualStackIP) (security localnet : bool)
  : list (string * column) :=
  match router_port with
  | Some rp =>
      [("type", ColStr "router"); ("addresses", ColStr "router");
       ("options", ColMap [("router-port", lrp_name rp)])]
  | None =>
      if truthy mac || obj_true ip || localnet then
        let addresses := join " " (lsp_address_list mac ip localnet) in
        ("addresses", ColStr addresses) ::
        (if security then [("port_security", ColStr addresses)] else [])
      else []
  end.

(** An address attribute read through an optional dual-stack address. *)
Definition addr_of (d : option DualStackIP)
           (pick : DualStackIP -> option IPAddress) : addr_field :=
  match d with
  | Some x => match pick x with Some a => Addr a | None => NoAddr end
  | None => NoAddr
  end.

Section Session.
Variable World : Type.
Variable execute : NbCmd -> World -> World * option UUID.

(** [OvnNbctl.ls_port_add]: the port is created through the UUID-retry
    loop, and the handle is built from the arguments. *)
Definition ls_port_add (lswitch : LSwitch) (name : string)
           (router_port : option LRPort) (mac : option string)
           (ip gw ext_gw : option DualStackIP) (metadata : option Z)
           (passive security localnet : bool) (w : World)
  : World * list NbCmd * result LSPort :=
  let columns := lsp_columns router_port mac ip security localnet in
  match uuid_transaction execute
          (fun may_exist => LspAdd (ls_uuid lswitch) name may_exist columns) w
  with
  | (w', tr, Raise e) => (w', tr, Raise e)
  | (w', tr, Ok uuid) =>
      let h_ip4 := if localnet then Unknown else addr_of ip ip4 in
      let h_plen4 := match ip with Some d => plen4 d | None => None end in
      let h_gw4 := addr_of gw ip4 in
      let h_ext_gw4 := addr_of ext_gw ip4 in
      let h_ip6 := addr_of ip ip6 in
      let h_plen6 := match ip with Some d => plen6 d | None => None end in
      let h_gw6 := addr_of gw ip6 in
      let h_ext_gw6 := addr_of ext_gw ip6 in
      (w', tr,
       Ok (mkLSPort name mac h_ip4 h_plen4 h_gw4 h_ext_gw4
                    h_ip6 h_plen6 h_gw6 h_ext_gw6 metadata passive uuid))
  end.
End Session.
End Ports.

End OvnNbctl.

(** ** Further operations of [ovn_workload.py] *)

Module Workload.

(** The exceptions of this part, besides the earlier ones. *)
Inductive exception : Type :=
| ValueError
| ZeroDivisionError
| IndexError
| OvnChassisTimeoutException
| Earlier (e : exn).

Inductive res (A : Type) : Type :=
| Done (a : A)
| Err (e : exception).
Arguments Done {A} a.
Arguments Err {A} e.

(** [range(start, stop, step)] for a positive step. *)
Definition range3 (start stop step : Z) : list Z :=
  map (fun k => start + Z.of_nat k * step)
      (seq 0 (Z.to_nat ((stop - start + step - 1) / step))).

(** The body of the loop of [set_raft_election_timeout]: the NB timer,
    then the SB timer. *)
Definition change_election_timers (timeout : Z) : list string :=
  [ "ovs-appctl -t " +:+
    "/run/ovn/ovnnb_db.ctl " +:+
    "cluster/change-election-timer " +:+
    "OVN_Northbound " +:+ str_int timeout;
    "ovs-appctl -t " +:+
    "/run/ovn/ovnsb_db.ctl " +:+
    "cluster/change-election-timer " +:+
    "OVN_Southbound " +:+ str_int timeout ].

(** [CentralNode.set_raft_election_timeout]: the commands run on the
    central container, in order. *)
Definition set_raft_election_timeout (timeout_s : Z) : list string :=
  flat_map change_election_timers
           (range3 1000 ((timeout_s + 1) * 1000) 1000).

(** [OvnSbctl.chassis_bound], on the names of the rows of the SB
    [Chassis] table: exactly one row has the name. *)
Definition chassis_bound (chassis_rows : list string) (chassis : string) : bool :=
  Nat.eqb (length (filter (fun n => String.eqb n chassis) chassis_rows)) 1.

(** The loop of [WorkerNode.wait]: [sb k] is the SB [Chassis] table at
    the [k]-th poll, [polls] the number of polls made so far; each poll
    that finds the chassis unbound is followed by a sleep of 0.1 s. *)
Fixpoint wait_loop (n : nat) (sb : nat -> list string) (chassis : string)
         (polls : nat) : res unit * nat :=
  match n with
  | O => (Err OvnChassisTimeoutException, polls)
  | S n' =>
      if chassis_bound (sb polls) chassis then (Done tt, S polls)
      else wait_loop n' sb chassis (S polls)
  end.

(** [WorkerNode.wait] *)
Definition wait (self : WorkerNode) (sb : nat -> list string) (timeout_s : Z)
  : res unit * nat :=
  wait_loop (Z.to_nat (timeout_s * 10)) sb (container self) 0.

(** What [unbind_port] asks of the local switch. *)
Inductive vsctl_undo : Type :=
| UnbindVmPort (port : string)
| DelPort (port : string).

(** [WorkerNode.unbind_port] *)
Definition unbind_port (port : LSPort) : list vsctl_undo :=
  (if negb (lsp_passive port) then [UnbindVmPort (lsp_name port)] else []) ++
  [DelPort (lsp_name port)].

#[global] Instance ipver_eq_dec : EqDecision ipver.
Proof. solve_decision. Defined.
#[global] Instance IPAddress_eq_dec : EqDecision IPAddress.
Proof. solve_decision. Defined.
#[global] Instance addr_field_eq_dec : EqDecision addr_field.
Proof. solve_decision. Defined.
#[global] Instance LSPort_eq_dec : EqDecision LSPort.
Proof. solve_decision. Defined.

(** [l.remove(x)]: the list without the first element equal to [x];
    [None] when there is none ([ValueError]). *)
Fixpoint list_remove {A} `{EqDecision A} (x : A) (l : list A) : option (list A) :=
  match l with
  | [] => None
  | y :: rest =>
      if decide (y = x) then Some rest
      else option_map (cons y) (list_remove x rest)
  end.

(** [WorkerNode.unprovision_port]: the name of the port deleted from the
    NB, what the local switch is asked, and the worker afterwards. *)
Definition unprovision_port (self : WorkerNode) (port : LSPort)
  : string * list vsctl_undo * res WorkerNode :=
  let nb_deleted := lsp_name port in
  let undone := unbind_port port in
  match list_remove port (lports self) with
  | Some rest =>
      (nb_deleted, undone,
       Done (mkWorkerNode (container self) (int_net self) (ext_net self)
                          (gw_net self) (id self) (switch self) rest
                          (next_lport_index self) (vsctl_log self)))
  | None => (nb_deleted, undone, Err ValueError)
  end.

(** *** The cluster *)

Record Cluster : Type :=
  mkCluster {
    worker_nodes : list WorkerNode;
    last_selected_worker : Z;
    nb_created : nat   (* ports created through the NB client so far *)
  }.

(** [Cluster.select_worker_for_port]: the worker chosen and the cluster
    with its counter moved. *)
Definition select_worker_for_port (self : Cluster) : res (WorkerNode * Cluster) :=
  let n := Z.of_nat (length (worker_nodes self)) in
  if n =? 0 then Err ZeroDivisionError
  else
    let last := (last_selected_worker self + 1) mod n in
    match worker_nodes self !! Z.to_nat last with
    | Some w => Done (w, mkCluster (worker_nodes self) last (nb_created self))
    | None => Err IndexError
    end.

Section ClusterProvision.
Variable rand_mac : nat -> string.
Variable db_uuid : nat -> UUID.

(** The loop of [Cluster.provision_ports]; the worker selected is
    updated in place. *)
Fixpoint cluster_provision_loop (n : nat) (self : Cluster) (passive : bool)
         (ret_list : list LSPort) : res (list LSPort * Cluster) :=
  match n with
  | O => Done (ret_list, self)
  | S n' =>
      match select_worker_for_port self with
      | Err e => Err e
      | Done (worker, self1) =>
          match provision_ports rand_mac db_uuid worker (nb_created self1)
                                1 passive with
          | Raise e => Err (Earlier e)
          | Ok (ports, worker', created') =>
              let self2 :=
                mkCluster
                  (<[Z.to_nat (last_selected_worker self1) := worker']>
                     (worker_nodes self1))
                  (last_selected_worker self1) created' in
              match ports with
              | [] => Err IndexError
              | p :: _ => cluster_provision_loop n' self2 passive (ret_list ++ [p])
              end
          end
      end
  end.

(** [Cluster.provision_ports] *)
Definition cluster_provision_ports (self : Cluster) (n_ports : Z)
           (passive : bool) : res (list LSPort * Cluster) :=
  cluster_provision_loop (Z.to_nat n_ports) self passive [].
End ClusterProvision.

(** The dictionary update [d[k].append(p)] of a [defaultdict(list)],
    keys in insertion order. *)
Fixpoint dict_append (k : option Z) (p : LSPort)
         (d : list (option Z * list LSPort)) : list (option Z * list LSPort) :=
  match d with
  | [] => [(k, [p])]
  | (k', ps) :: rest =>
      if decide (k' = k) then (k', ps ++ [p]) :: rest
      else (k', ps) :: dict_append k p rest
  end.

(** The grouping made by [Cluster.ping_ports] before it pings: the ports
    of each worker, keyed by the worker the port refers to. *)
Definition ports_per_worker (ports : list LSPort)
  : list (option Z * list LSPort) :=
  fold_left (fun d p => dict_append (lsp_metadata p) p d) ports [].

(** [d.get(k)] on such a dictionary. *)
Fixpoint dict_get (k : option Z) (d : list (option Z * list LSPort))
  : option (list LSPort) :=
  match d with
  | [] => None
  | (k', ps) :: rest => if decide (k' = k) then Some ps else dict_get k rest
  end.

(** A [defaultdict(list)] filled by appending has no empty entry: the
    entry of a list is absent when the list is empty. *)
Definition entry_of (ps : list LSPort) : option (list LSPort) :=
  match ps with
  | [] => None
  | _ :: _ => Some ps
  end.

Section SubNamespaces.
Variable str_v6 : Z -> string.

(** [Namespace.create_sub_ns]: the index returned, the namespace and the
    NB afterwards. *)
Definition create_sub_ns (self : Namespace) (ports : list LSPort) (db : NbDb)
  : nat * Namespace * NbDb :=
  let n_sub_pgs := length (sub_pg self) in
  let suffix := ns_name self +:+ "_" +:+ str_int (Z.of_nat n_sub_pgs) in
  let (g, db1) := port_group_create ("sub_pg_" +:+ suffix) db in
  let db2 := port_group_add_ports g ports db1 in
  let sub_pg' := sub_pg self ++ [g] in
  let (aset, db3) := address_set_create ("sub_as_" +:+ suffix) db2 in
  let db4 :=
    address_set_add_addrs (fun a : string => a) aset
                          (map (fun p => str_addr str_v6 (lsp_ip p)) ports) db3 in
  let sub_as' := sub_as self ++ [aset] in
  (n_sub_pgs,
   mkNamespace (ns_name self) (ns_ports self) (enforcing self)
               (pg_def_deny_igr self) (pg_def_deny_egr self) (pg self)
               (addr_set self) sub_as' sub_pg',
   db4).
End SubNamespaces.

End Workload.

Import Workload.

(** ** Specification vocabulary *)

(** The families of a dual-stack address mirror those of the subnet it
    was taken from, prefix lengths included. *)
Definition mirrors (s : DualStackSubnet) (d : DualStackIP) : Prop :=
  (is_Some (ip4 d) <-> is_Some (n4 s)) /\
  (is_Some (ip6 d) <-> is_Some (n6 s)) /\
  plen4 d = option_map prefixlen (n4 s) /\
  plen6 d = option_map prefixlen (n6 s).

(** The value held by an optional address is [v]. *)
Definition holds (o : option IPAddress) (v : Z) : Prop :=
  exists a, o = Some a /\ ip_value a = v.

(** [pick net] is a valid address value for every family present. *)
Definition in_range (pick : IPNetwork -> Z) (s : DualStackSubnet) : Prop :=
  forall net, n4 s = Some net \/ n6 s = Some net ->
              0 <= pick net <= max_int V6.

(** The barrier that a sync with the lower-cased wait type [wt] waits
    for: [sb_cfg] has reached [next_cfg], and for [hv] so has [hv_cfg]. *)
Definition barrier_reached (wt : string) (nb : NB_Global) (next_cfg : Z) : Prop :=
  if String.eqb wt "sb" then next_cfg <= sb_cfg nb
  else next_cfg <= Z.min (sb_cfg nb) (hv_cfg nb).

(** Up to the [k]-th observation the deadline [tmo] has not passed and
    the barrier has not been reached. *)
Definition still_waiting (wt : string) (tmo next_cfg : Z) (env : list Tick)
           (k : nat) : Prop :=
  forall j tj, (j < k)%nat -> env !! j = Some tj ->
               elapsed tj <= tmo /\ ~ barrier_reached wt (row tj) next_cfg.

(** The same in the terms of the code. *)
Definition quiet (t : NBTransaction) (next_cfg : Z) (env : list Tick)
           (k : nat) : Prop :=
  forall j tj, (j < k)%nat -> env !! j = Some tj ->
               timeout_exceeded t tj = false /\
               nb_has_completed t (row tj) next_cfg = false.

(** [k] rounds of a failed create followed by a failed lookup. *)
Definition rounds {Cmd} (create get : Cmd) (k : nat) : list Cmd :=
  concat (repeat [create; get] k).

(** The default remotes of a clustered database without relays as the
    specification words them: three endpoints whose addresses start at
    [node_net.ip + 5]. *)
Definition spec_clustered_remotes (str_v6 : Z -> string) (node_net : IPNetwork)
           (enable_ssl : bool) : string :=
  join ","
       (map (fun k =>
               (if enable_ssl then "ssl:" else "tcp:") +:+
               IPAddress_str str_v6
                 (mkIP (net_version node_net) (net_ip node_net + 5 + k)) +:+
               ":6642")
            [0; 1; 2]).

(** The endpoint for the [k]-th address yielded by [iter_hosts()]. *)
Definition host_endpoint (str_v6 : Z -> string) (proto : string)
           (net : IPNetwork) (k : nat) : string :=
  proto +:+
  IPAddress_str str_v6
    (mkIP (net_version net) (gen_cur (iter_hosts net) + Z.of_nat k)) +:+
  ":6642".

(** Executing a list of transactions in order. *)
Definition run_txns (ts : list NbTxn) (db : NbDb) : NbDb :=
  fold_left (fun d t => execute_txn t d) ts db.

(** Adding the ports one by one, a transaction each. *)
Definition port_group_add_each (pg : PortGroup) (lports : list LSPort)
           (db : NbDb) : NbDb :=
  fold_left (fun d p => port_group_add pg p d) lports db.

(** Adding the addresses one by one, a transaction each. *)
Definition address_set_add_each (addr_set : AddressSet) (addrs : list string)
           (db : NbDb) : NbDb :=
  fold_left
    (fun d a => execute_txn (AddressSetAddAddresses (as_name addr_set) [a]) d)
    addrs db.

(** An address field holds the address of value [v]. *)
Definition holds_addr (f : addr_field) (v : Z) : Prop :=
  exists a, f = Addr a /\ ip_value a = v.

(** [p] is the port of sequence number [k] on the worker [w]. *)
Definition port_of (w : WorkerNode) (k : Z) (p : LSPort) : Prop :=
  lsp_name p = "lp-" +:+ str_int (id w) +:+ "-" +:+ str_int k /\
  holds_addr (lsp_ip p) (first (int_net w) + k + 1) /\
  holds_addr (lsp_gw p) (last (int_net w) - 1) /\
  holds_addr (lsp_ext_gw p) (last (ext_net w) - 2).

(** The addresses that provisioning [n] more ports on [w] computes are
    valid address values. *)
Definition provisionable (w : WorkerNode) (n : Z) : Prop :=
  0 <= first (int_net w) + next_lport_index w + 1 /\
  first (int_net w) + next_lport_index w + n <= max_int V6 /\
  0 <= last (int_net w) - 1 <= max_int V6 /\
  0 <= last (ext_net w) - 2 <= max_int V6.

(** The worker's identity and networks are those of [w]. *)
Definition same_worker (w w' : WorkerNode) : Prop :=
  id w' = id w /\ int_net w' = int_net w /\ ext_net w' = ext_net w.

(** An NB database with no port group and no address set. *)
Definition empty_db : NbDb := mkNbDb ∅ ∅ [].

(** The members of the named row after [extra] has been added to it. *)
Definition extended {X} `{Countable X} (tbl : gmap string (gset X))
           (name : string) (extra : gset X) : option (gset X) :=
  (fun s => s ∪ extra) <$> (tbl !! name).

(** The indexes chosen by [k] successive calls of
    [select_worker_for_port], and the cluster afterwards. *)
Fixpoint select_many (k : nat) (c : Cluster) : res (list Z * Cluster) :=
  match k with
  | O => Done ([], c)
  | S k' =>
      match select_worker_for_port c with
      | Err e => Err e
      | Done (_, c1) =>
          match select_many k' c1 with
          | Err e => Err e
          | Done (idx, c2) => Done (last_selected_worker c1 :: idx, c2)
          end
      end
  end.

(** The command runs [ovs-appctl] in [container]: its [docker exec]
    prefix, the container name and [ovs-appctl] are separated by blanks. *)
Definition correctly_spaced (container cmd : string) : bool :=
  String.prefix ("docker exec " +:+ container +:+ " ovs-appctl ") cmd.

(** * Theorems *)

(** ** Addresses *)

Lemma IPAddress_of_int_value v a :
  IPAddress_of_int v = Ok a -> ip_value a = v.
Proof.
  unfold IPAddress_of_int.
  destruct (_ && _); [ intros [= <-]; reflexivity | ].
  destruct (_ && _); [ intros [= <-]; reflexivity | discriminate ].
Qed.

Lemma IPAddress_of_int_total v :
  0 <= v <= max_int V6 -> exists a, IPAddress_of_int v = Ok a.
Proof.
  intros [Hlo Hhi]. unfold IPAddress_of_int.
  destruct (v <=? max_int V4) eqn:E4.
  - exists (mkIP V4 v).
    replace (0 <=? v) with true by (symmetry; apply Z.leb_le; lia).
    reflexivity.
  - exists (mkIP V6 v).
    replace (0 <=? v) with true by (symmetry; apply Z.leb_le; lia).
    simpl.
    replace (max_int V4 <? v) with true
      by (symmetry; apply Z.ltb_lt; apply Z.leb_gt in E4; lia).
    replace (v <=? max_int V6) with true by (symmetry; apply Z.leb_le; lia).
    reflexivity.
Qed.

(** Both enumerations share their shape: they differ in the end of the
    network they count from. *)
Lemma dual_stack_pick_sound (pick : IPNetwork -> Z) s d
      (run : result DualStackIP) :
  run = match n4 s, n6 s with
        | Some net4, Some net6 =>
            let* a4 := IPAddress_of_int (pick net4) in
            let* a6 := IPAddress_of_int (pick net6) in
            Ok (mkDualStackIP (Some a4) (Some (prefixlen net4))
                              (Some a6) (Some (prefixlen net6)))
        | Some net4, None =>
            let* a4 := IPAddress_of_int (pick net4) in
            Ok (mkDualStackIP (Some a4) (Some (prefixlen net4)) None None)
        | None, Some net6 =>
            let* a6 := IPAddress_of_int (pick net6) in
            Ok (mkDualStackIP None None (Some a6) (Some (prefixlen net6)))
        | None, None => Raise OvnInvalidConfigException
        end ->
  run = Ok d ->
  mirrors s d /\
  (forall net4, n4 s = Some net4 -> holds (ip4 d) (pick net4)) /\
  (forall net6, n6 s = Some net6 -> holds (ip6 d) (pick net6)).
Proof.
  intros -> H. unfold mirrors, holds.
  destruct (n4 s) as [net4|], (n6 s) as [net6|]; simpl in H.
  - destruct (IPAddress_of_int (pick net4)) as [a4|] eqn:E4; [|discriminate].
    destruct (IPAddress_of_int (pick net6)) as [a6|] eqn:E6; [|discriminate].
    injection H as <-. simpl.
    apply IPAddress_of_int_value in E4, E6.
    repeat split; eauto; intros ? [= <-]; eauto.
  - destruct (IPAddress_of_int (pick net4)) as [a4|] eqn:E4; [|discriminate].
    injection H as <-. simpl. apply IPAddress_of_int_value in E4.
    repeat split; eauto; try (intros [? [=]]); try discriminate.
    intros ? [= <-]; eauto.
  - destruct (IPAddress_of_int (pick net6)) as [a6|] eqn:E6; [|discriminate].
    injection H as <-. simpl. apply IPAddress_of_int_value in E6.
    repeat split; eauto; try (intros [? [=]]); try discriminate.
    intros ? [= <-]; eauto.
  - discriminate.
Qed.

Lemma dual_stack_pick_total (pick : IPNetwork -> Z) s :
  is_Some (n4 s) \/ is_Some (n6 s) ->
  in_range pick s ->
  exists d,
    match n4 s, n6 s with
    | Some net4, Some net6 =>
        let* a4 := IPAddress_of_int (pick net4) in
        let* a6 := IPAddress_of_int (pick net6) in
        Ok (mkDualStackIP (Some a4) (Some (prefixlen net4))
                          (Some a6) (Some (prefixlen net6)))
    | Some net4, None =>
        let* a4 := IPAddress_of_int (pick net4) in
        Ok (mkDualStackIP (Some a4) (Some (prefixlen net4)) None None)
    | None, Some net6 =>
        let* a6 := IPAddress_of_int (pick net6) in
        Ok (mkDualStackIP None None (Some a6) (Some (prefixlen net6)))
    | None, None => Raise OvnInvalidConfigException
    end = Ok d.
Proof.
  unfold in_range. intros Hfam Hr.
  destruct (n4 s) as [net4|], (n6 s) as [net6|].
  - destruct (IPAddress_of_int_total (pick net4)) as [a4 ->]; [auto|].
    destruct (IPAddress_of_int_total (pick net6)) as [a6 ->]; [auto|].
    simpl. eauto.
  - destruct (IPAddress_of_int_total (pick net4)) as [a4 ->]; [auto|].
    simpl. eauto.
  - destruct (IPAddress_of_int_total (pick net6)) as [a6 ->]; [auto|].
    simpl. eauto.
  - destruct Hfam as [[? [=]]|[? [=]]].
Qed.

(** C7. For every dual-stack subnet [s] and index [i]: whatever
    [reverse(i)] returns has [ip4 = s.n4.last - i] when the v4 family is
    present (and likewise for v6), whatever [forward(i)] returns counts
    from [first], and in both the families present in the address are
    exactly those present in the subnet, an absent family being [None].
    Both calls do return when a family is present and the addresses
    picked are valid address values. *)
Theorem dual_stack_families_mirror_subnet (s : DualStackSubnet) (i : Z) :
  (forall d, reverse s i = Ok d ->
     mirrors s d /\
     (forall net4, n4 s = Some net4 -> holds (ip4 d) (last net4 - i)) /\
     (forall net6, n6 s = Some net6 -> holds (ip6 d) (last net6 - i))) /\
  (forall d, forward s i = Ok d ->
     mirrors s d /\
     (forall net4, n4 s = Some net4 -> holds (ip4 d) (first net4 + i)) /\
     (forall net6, n6 s = Some net6 -> holds (ip6 d) (first net6 + i))) /\
  (is_Some (n4 s) \/ is_Some (n6 s) ->
   (in_range (fun net => last net - i) s -> exists d, reverse s i = Ok d) /\
   (in_range (fun net => first net + i) s -> exists d, forward s i = Ok d)).
Proof.
  split; [|split].
  - intros d H.
    exact (dual_stack_pick_sound (fun net => last net - i) s d (reverse s i)
                                 eq_refl H).
  - intros d H.
    exact (dual_stack_pick_sound (fun net => first net + i) s d (forward s i)
                                 eq_refl H).
  - intros Hfam. split; intros Hr.
    + exact (dual_stack_pick_total (fun net => last net - i) s Hfam Hr).
    + exact (dual_stack_pick_total (fun net => first net + i) s Hfam Hr).
Qed.

(** The theorem at the default internal network 16.0.0.0/16, IPv4 only,
    index 1. *)
Lemma dual_stack_families_mirror_subnet_witness :
  let s := mkDualStackSubnet (Some (mkNet V4 268435456 16)) None in
  reverse s 1 = Ok (mkDualStackIP (Some (mkIP V4 268500990)) (Some 16) None None) /\
  mirrors s (mkDualStackIP (Some (mkIP V4 268500990)) (Some 16) None None) /\
  exists d, forward s 1 = Ok d.
Proof.
  intros s.
  pose proof (dual_stack_families_mirror_subnet s 1) as (Hrev & _ & Htot).
  split; [reflexivity|]. split.
  - apply (Hrev _ eq_refl).
  - apply Htot.
    + left. eexists. reflexivity.
    + intros net [[= <-]|[=]]. vm_compute. split; discriminate.
Defined.

(** ** The sync barrier *)

Lemma quiet_cons t next tk env k :
  timeout_exceeded t tk = false ->
  nb_has_completed t (row tk) next = false ->
  quiet t next env k -> quiet t next (tk :: env) (S k).
Proof.
  intros H1 H2 Hq [|j] tj Hj Hl; simpl in Hl.
  - injection Hl as <-. auto.
  - apply (Hq j); [lia | exact Hl].
Qed.

Lemma quiet_tail t next tk env k :
  quiet t next (tk :: env) (S k) -> quiet t next env k.
Proof.
  intros Hq j tj Hj Hl. apply (Hq (S j)); [lia | exact Hl].
Qed.

Lemma quiet_nil t next env : quiet t next env 0.
Proof. intros j tj Hj. lia. Qed.

(** What the polling loop returns, in terms of the first observation at
    which the deadline has passed or the barrier is reached. *)
Lemma poll_loop_spec t next env p :
  match poll_loop t next env p with
  | (Returned, q) =>
      exists k tk, q = (p + S k)%nat /\ env !! k = Some tk /\
                   timeout_exceeded t tk = false /\
                   nb_has_completed t (row tk) next = true /\
                   quiet t next env k
  | (Raised e, q) =>
      e = TimeoutException /\
      exists k tk, q = (p + k)%nat /\ env !! k = Some tk /\
                   timeout_exceeded t tk = true /\
                   quiet t next env k
  | (Blocked, q) => q = (p + length env)%nat /\ quiet t next env (length env)
  end.
Proof.
  revert p. induction env as [|tk env IH]; intros p; simpl.
  - split; [lia | apply quiet_nil].
  - destruct (timeout_exceeded t tk) eqn:Et.
    + split; [reflexivity|]. exists 0%nat, tk.
      split; [lia|]. split; [reflexivity|]. split; [exact Et | apply quiet_nil].
    + destruct (nb_has_completed t (row tk) next) eqn:Ec.
      * exists 0%nat, tk.
        split; [lia|]. split; [reflexivity|]. split; [exact Et|].
        split; [exact Ec | apply quiet_nil].
      * specialize (IH (S p)).
        destruct (poll_loop t next env (S p)) as [[|e|] q].
        -- destruct IH as (k & tk' & -> & Hl & Ht & Hc & Hq).
           exists (S k), tk'.
           split; [lia|]. split; [exact Hl|]. split; [exact Ht|].
           split; [exact Hc | auto using quiet_cons].
        -- destruct IH as (-> & k & tk' & -> & Hl & Ht & Hq).
           split; [reflexivity|]. exists (S k), tk'.
           split; [lia|]. split; [exact Hl|].
           split; [exact Ht | auto using quiet_cons].
        -- destruct IH as (-> & Hq). split; [lia | auto using quiet_cons].
Qed.

(** The first decisive observation determines the result. *)
Lemma poll_loop_returns t next env k tk p :
  env !! k = Some tk ->
  timeout_exceeded t tk = false ->
  nb_has_completed t (row tk) next = true ->
  quiet t next env k ->
  poll_loop t next env p = (Returned, (p + S k)%nat).
Proof.
  revert k p. induction env as [|tk0 env IH]; intros k p Hl Ht Hc Hq.
  - discriminate.
  - destruct k as [|k]; simpl in Hl |- *.
    + injection Hl as ->. rewrite Ht, Hc. f_equal. lia.
    + destruct (Hq 0%nat tk0) as [-> ->]; [lia | reflexivity |].
      rewrite (IH k (S p) Hl Ht Hc (quiet_tail _ _ _ _ _ Hq)).
      f_equal. lia.
Qed.

Lemma poll_loop_times_out t next env k tk p :
  env !! k = Some tk ->
  timeout_exceeded t tk = true ->
  quiet t next env k ->
  poll_loop t next env p = (Raised TimeoutException, (p + k)%nat).
Proof.
  revert k p. induction env as [|tk0 env IH]; intros k p Hl Ht Hq.
  - discriminate.
  - destruct k as [|k]; simpl in Hl |- *.
    + injection Hl as ->. rewrite Ht. f_equal. lia.
    + destruct (Hq 0%nat tk0) as [-> ->]; [lia | reflexivity |].
      rewrite (IH k (S p) Hl Ht (quiet_tail _ _ _ _ _ Hq)).
      f_equal. lia.
Qed.

(** A transaction created with wait type [sb] or [hv], in any case. *)
Lemma NBTransaction_init_waits (wait : string) tmo chk :
  lower wait = "sb" \/ lower wait = "hv" ->
  NBTransaction_init tmo chk (Some wait) =
  (mkNBTransaction tmo chk (Some (lower wait)), []).
Proof.
  intros H. destruct wait as [|c w]; [destruct H; discriminate|].
  unfold NBTransaction_init.
  change (truthy (Some (String c w))) with true. cbv iota.
  unfold option_map. destruct H as [H|H]; rewrite H; reflexivity.
Qed.

(** The code's test is the barrier condition. *)
Lemma nb_has_completed_barrier (wt : string) tmo chk nb next :
  wt = "sb" \/ wt = "hv" ->
  nb_has_completed (mkNBTransaction tmo chk (Some wt)) nb next = true <->
  barrier_reached wt nb next.
Proof.
  unfold nb_has_completed, barrier_reached.
  intros [-> | ->]; simpl; rewrite Z.leb_le; reflexivity.
Qed.

Lemma quiet_still_waiting (wt : string) tmo chk next env k :
  wt = "sb" \/ wt = "hv" ->
  quiet (mkNBTransaction tmo chk (Some wt)) next env k <->
  still_waiting wt tmo next env k.
Proof.
  intros Hwt. unfold quiet, still_waiting, timeout_exceeded. simpl.
  split; intros H j tj Hj Hl; destruct (H j tj Hj Hl) as [H1 H2]; split.
  - apply Z.ltb_ge. exact H1.
  - rewrite <- (nb_has_completed_barrier wt tmo chk) by exact Hwt.
    rewrite H2. discriminate.
  - apply Z.ltb_ge. exact H1.
  - rewrite <- (nb_has_completed_barrier wt tmo chk) in H2 by exact Hwt.
    destruct (nb_has_completed _ _ _); [exfalso; auto | reflexivity].
Qed.

(** A sync with a recognised wait type increments [nb_cfg], commits and
    polls for the new value. *)
Lemma sync_waits (wait : string) tmo cfg env :
  lower wait = "sb" \/ lower wait = "hv" ->
  sync (Some wait) tmo cfg env =
  match poll_loop (mkNBTransaction tmo true (Some (lower wait))) (cfg + 1) env 0 with
  | (Raised TimeoutException, polls) =>
      mkCommitRun Returned (cfg + 1) polls [LogException "Transaction timed out"]
  | (o, polls) => mkCommitRun o (cfg + 1) polls []
  end.
Proof.
  intros H. unfold sync. rewrite (NBTransaction_init_waits wait tmo true H).
  unfold commit, pre_commit, post_commit, do_post_commit.
  destruct H as [H|H]; rewrite H; simpl;
    match goal with |- context [poll_loop ?t ?n ?e ?p] =>
      destruct (poll_loop t n e p) as [[|[]|] q] end; reflexivity.
Qed.

(** C2. A sync with wait type [sb] (resp. [hv]) increments [nb_cfg] in
    its transaction.  The barrier poll [do_post_commit] returns exactly
    when some observation of the NB row, made before the deadline has
    passed, shows [sb_cfg] (resp. the smaller of [sb_cfg] and [hv_cfg])
    at or above the incremented value, and it returns at the first such
    observation; accordingly the sync call returns within the deadline,
    that is without a timeout being logged, exactly in that case. *)
Theorem sync_returns_only_after_barrier
        (wait : string) (tmo cfg : Z) (env : list Tick) :
  lower wait = "sb" \/ lower wait = "hv" ->
  let t := fst (NBTransaction_init tmo true (Some wait)) in
  let r := sync (Some wait) tmo cfg env in
  let reached (k : nat) (tk : Tick) :=
    env !! k = Some tk /\ elapsed tk <= tmo /\
    barrier_reached (lower wait) (row tk) (cfg + 1) /\
    still_waiting (lower wait) tmo (cfg + 1) env k in
  run_nb_cfg r = cfg + 1 /\
  (forall k,
     do_post_commit t (mkIdlTxn true (cfg + 1)) env = (Returned, S k) <->
     exists tk, reached k tk) /\
  ((run_outcome r = Returned /\ run_log r = []) <->
   exists k tk, run_polls r = S k /\ reached k tk).
Proof.
  intros Hwt t r reached. subst t r reached.
  rewrite (sync_waits wait tmo cfg env Hwt).
  rewrite (NBTransaction_init_waits wait tmo true Hwt). cbn [fst].
  set (t := mkNBTransaction tmo true (Some (lower wait))).
  assert (Hdpc : do_post_commit t (mkIdlTxn true (cfg + 1)) env =
                 poll_loop t (cfg + 1) env 0).
  { unfold do_post_commit. subst t. cbn [wait_type increment_new_value].
    destruct Hwt as [H|H]; rewrite H; reflexivity. }
  rewrite Hdpc.
  pose proof (poll_loop_spec t (cfg + 1) env 0) as Hspec.
  assert (Hback : forall k tk,
             env !! k = Some tk -> elapsed tk <= tmo ->
             barrier_reached (lower wait) (row tk) (cfg + 1) ->
             still_waiting (lower wait) tmo (cfg + 1) env k ->
             poll_loop t (cfg + 1) env 0 = (Returned, S k)).
  { intros k tk Hl Ht Hb Hw.
    apply (poll_loop_returns t (cfg + 1) env k tk 0 Hl).
    - apply Z.ltb_ge. exact Ht.
    - apply (nb_has_completed_barrier (lower wait) tmo true); assumption.
    - apply (quiet_still_waiting (lower wait) tmo true); assumption. }
  split; [|split].
  - destruct (poll_loop t (cfg + 1) env 0) as [[|[]|] q]; reflexivity.
  - intros k. split.
    + intros E. rewrite E in Hspec.
      destruct Hspec as (k' & tk & [= ->] & Hl & Ht & Hc & Hq).
      exists tk. split; [exact Hl|]. split; [apply Z.ltb_ge; exact Ht|].
      split.
      * apply (nb_has_completed_barrier (lower wait) tmo true); assumption.
      * apply (quiet_still_waiting (lower wait) tmo true); assumption.
    + intros (tk & Hl & Ht & Hb & Hw). exact (Hback k tk Hl Ht Hb Hw).
  - split.
    + destruct (poll_loop t (cfg + 1) env 0) as [[|e|] q].
      * intros _. destruct Hspec as (k & tk & -> & Hl & Ht & Hc & Hq).
        exists k, tk. simpl.
        split; [reflexivity|]. split; [exact Hl|].
        split; [apply Z.ltb_ge; exact Ht|].
        split.
        -- apply (nb_has_completed_barrier (lower wait) tmo true); assumption.
        -- apply (quiet_still_waiting (lower wait) tmo true); assumption.
      * destruct Hspec as [-> _]. simpl. intros [_ [=]].
      * simpl. intros [[=] _].
    + intros (k & tk & _ & Hl & Ht & Hb & Hw).
      rewrite (Hback k tk Hl Ht Hb Hw). simpl. auto.
Qed.

(** The theorem for [sync("SB")] with a deadline of 60, [nb_cfg] going
    from 4 to 5 and [sb_cfg] catching up at the second poll. *)
Lemma sync_returns_only_after_barrier_witness :
  let env := [mkTick 0 (mkNB 5 4 4); mkTick 1 (mkNB 5 5 4)] in
  sync (Some "SB") DEFAULT_CTL_TIMEOUT 4 env = mkCommitRun Returned 5 2 [] /\
  exists k tk,
    env !! k = Some tk /\ elapsed tk <= DEFAULT_CTL_TIMEOUT /\
    barrier_reached "sb" (row tk) 5.
Proof.
  intros env.
  pose proof (sync_returns_only_after_barrier
                "SB" DEFAULT_CTL_TIMEOUT 4 env (or_introl eq_refl))
    as (_ & _ & Hsync).
  split; [reflexivity|].
  destruct Hsync as [Hsync _].
  destruct (Hsync (conj eq_refl eq_refl)) as (k & tk & _ & Hl & Ht & Hb & _).
  exists k, tk. auto.
Defined.

(** C3, as stated, fails: with [hv_cfg] stuck below the incremented
    [nb_cfg] until the deadline of 60 has passed, the barrier poll does
    time out, yet the sync call returns normally: the error is logged,
    not raised. *)
Lemma sync_timeout_not_surfaced :
  let env := [mkTick 0 (mkNB 5 5 4); mkTick 30 (mkNB 5 5 4);
              mkTick 61 (mkNB 5 5 4)] in
  do_post_commit (mkNBTransaction 60 true (Some "hv")) (mkIdlTxn true 5) env
  = (Raised TimeoutException, 2%nat) /\
  run_outcome (sync (Some "hv") 60 4 env) = Returned /\
  run_outcome (sync (Some "hv") 60 4 env) <> Raised TimeoutException.
Proof.
  intros env. split; [reflexivity|]. split; [reflexivity|].
  vm_compute. discriminate.
Qed.

(** C3, amended. If the barrier poll of a sync exceeds the deadline
    before the barrier is reached, [do_post_commit] raises the timeout,
    [post_commit] catches and logs it, and the sync call returns normally;
    the increment of [nb_cfg] made by the transaction stays committed. *)
Theorem sync_timeout_logged_write_kept
        (wait : string) (tmo cfg : Z) (env : list Tick) (k : nat) (tk : Tick) :
  lower wait = "sb" \/ lower wait = "hv" ->
  env !! k = Some tk ->
  tmo < elapsed tk ->
  still_waiting (lower wait) tmo (cfg + 1) env k ->
  do_post_commit (mkNBTransaction tmo true (Some (lower wait)))
                 (mkIdlTxn true (cfg + 1)) env
  = (Raised TimeoutException, k) /\
  sync (Some wait) tmo cfg env =
  mkCommitRun Returned (cfg + 1) k [LogException "Transaction timed out"].
Proof.
  intros Hwt Hl Ht Hw.
  set (t := mkNBTransaction tmo true (Some (lower wait))).
  assert (Hpoll : poll_loop t (cfg + 1) env 0 = (Raised TimeoutException, k)).
  { apply (poll_loop_times_out t (cfg + 1) env k tk 0 Hl).
    - apply Z.ltb_lt. exact Ht.
    - apply (quiet_still_waiting (lower wait) tmo true); assumption. }
  split.
  - unfold do_post_commit. subst t. simpl wait_type.
    destruct Hwt as [H|H]; rewrite H in *; exact Hpoll.
  - rewrite (sync_waits wait tmo cfg env Hwt). fold t. rewrite Hpoll.
    reflexivity.
Qed.

(** The amended claim for [sync("hv")] with [hv_cfg] stuck at 4. *)
Lemma sync_timeout_logged_write_kept_witness :
  let env := [mkTick 0 (mkNB 5 5 4); mkTick 30 (mkNB 5 5 4);
              mkTick 61 (mkNB 5 5 4)] in
  do_post_commit (mkNBTransaction 60 true (Some (lower "hv")))
                 (mkIdlTxn true (4 + 1)) env
  = (Raised TimeoutException, 2%nat) /\
  sync (Some "hv") 60 4 env =
  mkCommitRun Returned (4 + 1) 2 [LogException "Transaction timed out"].
Proof.
  intros env.
  apply (sync_timeout_logged_write_kept "hv" 60 4 env 2 (mkTick 61 (mkNB 5 5 4))).
  - right. reflexivity.
  - reflexivity.
  - reflexivity.
  - intros j tj Hj Hl.
    destruct j as [|[|j]]; [| | lia]; injection Hl as <-;
      (split; [discriminate | vm_compute; intros H; apply H; reflexivity]).
Defined.

(** C10. For every wait type that, once lower-cased, is neither [sb]
    nor [hv], the transaction is built with no wait type: nothing is
    staged to increment [nb_cfg], the commit leaves it unchanged, the
    barrier is never polled whatever the replica shows, and the call
    returns normally; at most a warning is logged (none for [None] and
    the empty string). *)
Theorem unrecognized_wait_type_is_no_wait
        (wait : option string) (tmo cfg : Z) (env : list Tick) :
  option_map lower wait <> Some "sb" ->
  option_map lower wait <> Some "hv" ->
  let t := fst (NBTransaction_init tmo true wait) in
  wait_type t = None /\
  inc_nb_cfg (pre_commit t (mkIdlTxn false cfg)) = false /\
  do_post_commit t (mkIdlTxn false cfg) env = (Returned, 0%nat) /\
  sync wait tmo cfg env =
  mkCommitRun Returned cfg 0
    (if truthy wait
     then [LogWarning ("Unrecognized wait type " +:+
                       default "" (option_map lower wait) +:+ ". Ignoring")]
     else []).
Proof.
  intros Hsb Hhv.
  assert (Hinit : NBTransaction_init tmo true wait =
                  (mkNBTransaction tmo true None,
                   if truthy wait
                   then [LogWarning ("Unrecognized wait type " +:+
                           default "" (option_map lower wait) +:+ ". Ignoring")]
                   else [])).
  { destruct wait as [[|c w]|]; [reflexivity | | reflexivity].
    unfold NBTransaction_init.
    change (truthy (Some (String c w))) with true. cbv iota.
    change (truthy (option_map lower (Some (String c w)))) with true.
    unfold str_eq, option_map in *.
    destruct (String.eqb_spec (lower (String c w)) "sb") as [E|_];
      [rewrite E in Hsb; contradiction|].
    destruct (String.eqb_spec (lower (String c w)) "hv") as [E|_];
      [rewrite E in Hhv; contradiction|].
    reflexivity. }
  intros t. subst t. unfold sync. rewrite Hinit. simpl.
  rewrite app_nil_r. repeat split; reflexivity.
Qed.

(** The theorem for [sync("none")]. *)
Lemma unrecognized_wait_type_is_no_wait_witness :
  sync (Some "none") 60 4 [mkTick 0 (mkNB 4 3 3)] =
  mkCommitRun Returned 4 0
              [LogWarning "Unrecognized wait type none. Ignoring"].
Proof.
  apply (unrecognized_wait_type_is_no_wait
           (Some "none") 60 4 [mkTick 0 (mkNB 4 3 3)]); discriminate.
Defined.

(** ** UUID retry *)

Lemma rounds_length {Cmd} (create get : Cmd) k :
  length (rounds create get k) = (2 * k)%nat.
Proof.
  unfold rounds. induction k as [|k IH]; simpl; [reflexivity|].
  rewrite IH. lia.
Qed.

Section UuidRetryFacts.
Context {World Cmd : Type}.
Variable execute : Cmd -> World -> World * option UUID.

Lemma uuid_transaction_loop_spec n func w tr0 w' tr r :
  uuid_transaction_loop execute n func w tr0 = (w', tr, r) ->
  exists j outcomes,
    (j <= n)%nat /\
    tr = tr0 ++ repeat (func true) j /\
    replay execute (repeat (func true) j) w = (w', outcomes) /\
    match r with
    | Ok u => exists k, j = S k /\ outcomes = repeat None k ++ [Some u]
    | Raise e => e = UUIDTransactionError /\ j = n /\ outcomes = repeat None n
    end.
Proof.
  revert w tr0. induction n as [|n IH]; intros w tr0; simpl.
  - intros [= <- <- <-]. exists 0%nat, []. simpl.
    rewrite app_nil_r. repeat split; auto.
  - destruct (execute (func true) w) as [w1 [u|]] eqn:Ex.
    + intros [= <- <- <-]. exists 1%nat, [Some u]. simpl. rewrite Ex.
      split; [lia|]. split; [reflexivity|]. split; [reflexivity|].
      exists 0%nat. auto.
    + intros Hloop. apply IH in Hloop.
      destruct Hloop as (j & outcomes & Hj & -> & Hrep & Hr).
      exists (S j), (None :: outcomes). simpl. rewrite Ex, Hrep.
      split; [lia|]. split; [rewrite <- app_assoc; reflexivity|].
      split; [reflexivity|].
      destruct r as [u|e].
      * destruct Hr as (k & -> & ->). exists (S k). auto.
      * destruct Hr as (-> & -> & ->). repeat split; auto.
Qed.

Lemma db_create_transaction_loop_spec n create get_func w tr0 w' tr r :
  db_create_transaction_loop execute n create get_func w tr0 = (w', tr, r) ->
  exists body outcomes k,
    tr = tr0 ++ body /\
    replay execute body w = (w', outcomes) /\
    match r with
    | Ok u =>
        (k < n)%nat /\
        ((body = rounds create (get_func tt) k ++ [create] /\
          outcomes = repeat None (2 * k) ++ [Some u]) \/
         (body = rounds create (get_func tt) k ++ [create; get_func tt] /\
          outcomes = repeat None (2 * k + 1) ++ [Some u]))
    | Raise e =>
        e = UUIDTransactionError /\ k = n /\
        body = rounds create (get_func tt) n /\
        outcomes = repeat None (2 * n)
    end.
Proof.
  revert w tr0. induction n as [|n IH]; intros w tr0; simpl.
  - intros [= <- <- <-]. exists [], [], 0%nat. simpl.
    rewrite app_nil_r. repeat split; auto.
  - destruct (execute create w) as [w1 [u|]] eqn:Ex1.
    + intros [= <- <- <-]. exists [create], [Some u], 0%nat. simpl.
      rewrite Ex1. split; [reflexivity|]. split; [reflexivity|].
      split; [lia|]. left. auto.
    + destruct (execute (get_func tt) w1) as [w2 [u|]] eqn:Ex2.
      * intros [= <- <- <-].
        exists [create; get_func tt], [None; Some u], 0%nat. simpl.
        rewrite Ex1, Ex2. split; [reflexivity|]. split; [reflexivity|].
        split; [lia|]. right. auto.
      * intros Hloop. apply IH in Hloop.
        destruct Hloop as (body & outcomes & k & -> & Hrep & Hr).
        exists ([create; get_func tt] ++ body), (None :: None :: outcomes).
        destruct r as [u|e].
        -- exists (S k). simpl. rewrite Ex1, Ex2, Hrep.
           split; [rewrite <- app_assoc; reflexivity|].
           split; [reflexivity|].
           destruct Hr as (Hk & [[-> ->]|[-> ->]]); (split; [lia|]).
           ++ left. split; [reflexivity|].
              replace (k + S (k + 0))%nat with (S (2 * k)) by lia.
              reflexivity.
           ++ right. split; [reflexivity|].
              replace (k + S (k + 0) + 1)%nat with (S (2 * k + 1)) by lia.
              reflexivity.
        -- exists (S n). simpl. rewrite Ex1, Ex2, Hrep.
           split; [rewrite <- app_assoc; reflexivity|].
           split; [reflexivity|].
           destruct Hr as (-> & _ & -> & ->).
           split; [reflexivity|]. split; [reflexivity|].
           split; [reflexivity|].
           replace (n + S (n + 0))%nat with (S (2 * n)) by lia.
           reflexivity.
Qed.
End UuidRetryFacts.

(** C1. Both retry paths make at most [MAX_RETRY] (five) create
    attempts.  [uuid_transaction] issues every attempt with
    [may_exist=True]; [db_create_transaction] follows every create whose
    result carries no UUID by the lookup [get_func()].  The call returns
    the UUID of the first attempt or lookup that yields one, everything
    before it having yielded none, and when five attempts (and their
    lookups) have all failed it raises [UUIDTransactionError]. *)
Theorem uuid_retry_bounded_and_idempotent
        {World Cmd : Type} (execute : Cmd -> World -> World * option UUID) :
  (forall (func : bool -> Cmd) (w : World),
     match uuid_transaction execute func w with
     | (w', tr, r) =>
         (length tr <= MAX_RETRY)%nat /\
         tr = repeat (func true) (length tr) /\
         exists outcomes,
           replay execute tr w = (w', outcomes) /\
           match r with
           | Ok u => exists k, outcomes = repeat None k ++ [Some u]
           | Raise e =>
               e = UUIDTransactionError /\ length tr = MAX_RETRY /\
               outcomes = repeat None MAX_RETRY
           end
     end) /\
  (forall (create : Cmd) (get_func : unit -> Cmd) (w : World),
     match db_create_transaction execute create get_func w with
     | (w', tr, r) =>
         exists outcomes k,
           replay execute tr w = (w', outcomes) /\
           (length tr <= 2 * MAX_RETRY)%nat /\
           match r with
           | Ok u =>
               (k < MAX_RETRY)%nat /\
               ((tr = rounds create (get_func tt) k ++ [create] /\
                 outcomes = repeat None (2 * k) ++ [Some u]) \/
                (tr = rounds create (get_func tt) k ++ [create; get_func tt] /\
                 outcomes = repeat None (2 * k + 1) ++ [Some u]))
           | Raise e =>
               e = UUIDTransactionError /\
               tr = rounds create (get_func tt) MAX_RETRY /\
               outcomes = repeat None (2 * MAX_RETRY)
           end
     end).
Proof.
  split.
  - intros func w. unfold uuid_transaction.
    destruct (uuid_transaction_loop execute MAX_RETRY func w [])
      as [[w' tr] r] eqn:E.
    apply uuid_transaction_loop_spec in E.
    destruct E as (j & outcomes & Hj & -> & Hrep & Hr). simpl.
    rewrite repeat_length.
    split; [exact Hj|]. split; [reflexivity|].
    exists outcomes. split; [exact Hrep|].
    destruct r as [u|e].
    + destruct Hr as (k & _ & ->). eauto.
    + destruct Hr as (-> & -> & ->). auto.
  - intros create get_func w. unfold db_create_transaction.
    destruct (db_create_transaction_loop execute MAX_RETRY create get_func w [])
      as [[w' tr] r] eqn:E.
    apply db_create_transaction_loop_spec in E.
    destruct E as (body & outcomes & k & -> & Hrep & Hr). simpl.
    exists outcomes, k. split; [exact Hrep|].
    destruct r as [u|e].
    + split; [|exact Hr].
      destruct Hr as (Hk & [[-> _]|[-> _]]);
        rewrite length_app, rounds_length; unfold MAX_RETRY in *; simpl; lia.
    + destruct Hr as (-> & _ & -> & ->).
      split; [rewrite rounds_length; unfold MAX_RETRY; simpl; lia | auto].
Qed.

(** A leadership change swallows the reply to the first commit of
    [lr_add("lr-cluster")]: the second attempt finds the row and returns
    its UUID. *)
Example lr_add_survives_lost_reply :
  uuid_transaction FlakyNb.execute (FlakyNb.LrAdd "lr-cluster")
                   (FlakyNb.mkWorld [] 7%N [true])
  = (FlakyNb.mkWorld [("lr-cluster", 7%N)] 8%N [],
     [FlakyNb.LrAdd "lr-cluster" true; FlakyNb.LrAdd "lr-cluster" true],
     Ok 7%N).
Proof. reflexivity. Qed.

(** The same for a raw row create: the lookup finds the row. *)
Example db_create_survives_lost_reply :
  db_create_transaction FlakyNb.execute
                        (FlakyNb.DbCreate "Load_Balancer" "lb-tcp")
                        (fun _ => FlakyNb.DbGet "Load_Balancer" "lb-tcp")
                        (FlakyNb.mkWorld [] 7%N [true])
  = (FlakyNb.mkWorld [("lb-tcp", 7%N)] 8%N [],
     [FlakyNb.DbCreate "Load_Balancer" "lb-tcp";
      FlakyNb.DbGet "Load_Balancer" "lb-tcp"],
     Ok 7%N).
Proof. reflexivity. Qed.

(** Five lost replies in a row exhaust the retries. *)
Example lr_add_gives_up :
  snd (uuid_transaction FlakyNb.execute (FlakyNb.LrAdd "lr-cluster")
                        (FlakyNb.mkWorld [] 7%N [true; true; true; true; true]))
  = Raise UUIDTransactionError.
Proof. reflexivity. Qed.

(** ** Default node remotes *)

Section RemotesFacts.
Variable str_v6 : Z -> string.

Lemma skip_hosts_ok n g :
  gen_cur g + Z.of_nat n <= gen_stop g + 1 ->
  skip_hosts n g =
  Ok (mkGen (gen_version g) (gen_cur g + Z.of_nat n) (gen_stop g)).
Proof.
  revert g. induction n as [|n IH]; intros g Hle.
  - simpl. destruct g; simpl. do 2 f_equal. lia.
  - simpl. unfold next.
    replace (gen_cur g <=? gen_stop g) with true
      by (symmetry; apply Z.leb_le; lia).
    simpl. rewrite IH by (simpl; lia). simpl. do 2 f_equal. lia.
Qed.

Lemma take_remotes_ok proto n g :
  gen_cur g + Z.of_nat n <= gen_stop g + 1 ->
  take_remotes str_v6 proto n g =
  Ok (map (fun k => proto +:+
                    IPAddress_str str_v6
                      (mkIP (gen_version g) (gen_cur g + Z.of_nat k)) +:+
                    ":6642")
          (seq 0 n)).
Proof.
  revert g. induction n as [|n IH]; intros g Hle.
  - reflexivity.
  - simpl. unfold next.
    replace (gen_cur g <=? gen_stop g) with true
      by (symmetry; apply Z.leb_le; lia).
    simpl. rewrite IH by (simpl; lia). simpl.
    rewrite Z.add_0_r. do 2 f_equal.
    rewrite <- seq_shift, map_map. apply map_ext. intros k.
    replace (gen_cur g + 1 + Z.of_nat k) with (gen_cur g + Z.of_nat (S k))
      by lia.
    reflexivity.
Qed.

Lemma iter_hosts_version net :
  gen_version (iter_hosts net) = net_version net.
Proof. unfold iter_hosts. destruct (4 <=? size net); reflexivity. Qed.
End RemotesFacts.

(** C4, as stated, fails.  For the default [node_net] 192.16.0.0/16 with
    a clustered database, SSL and no relays, the three endpoints are the
    first three hosts 192.16.0.1 to 192.16.0.3, not the addresses from
    [node_net.ip + 5] on; and with two relays the result has two
    endpoints, which follow the three hosts skipped. *)
Lemma default_node_remotes_not_from_ip_plus_5 :
  let node_net := mkNet V4 (192 * 2 ^ 24 + 16 * 2 ^ 16) 16 in
  let str_v6 := fun _ : Z => "" in
  calculate_default_node_remotes str_v6 node_net true 0 true
  = Ok "ssl:192.16.0.1:6642,ssl:192.16.0.2:6642,ssl:192.16.0.3:6642" /\
  spec_clustered_remotes str_v6 node_net true
  = "ssl:192.16.0.5:6642,ssl:192.16.0.6:6642,ssl:192.16.0.7:6642" /\
  calculate_default_node_remotes str_v6 node_net true 0 true
  <> Ok (spec_clustered_remotes str_v6 node_net true) /\
  calculate_default_node_remotes str_v6 node_net true 2 false
  = Ok "tcp:192.16.0.4:6642,tcp:192.16.0.5:6642".
Proof.
  intros node_net str_v6.
  split; [vm_compute; reflexivity|].
  split; [vm_compute; reflexivity|].
  split; [vm_compute; discriminate | vm_compute; reflexivity].
Qed.

(** C4, amended.  The default is the comma-joined list of
    [{ssl|tcp}:{ip}:6642] endpoints over consecutive addresses yielded by
    [node_net.iter_hosts()]: without relays the first 3 (clustered) or 1
    (single) of them, with relays the [n_relays] addresses that follow
    the first 3 (clustered) or 1 (single), provided the network has that
    many hosts.  In particular a clustered database without relays on a
    network of at least five addresses gets the three endpoints at
    [node_net.first + 1], [+ 2] and [+ 3]. *)
Theorem default_node_remotes_over_hosts
        (str_v6 : Z -> string) (net : IPNetwork)
        (clustered : bool) (n_relays : Z) (enable_ssl : bool) :
  let proto := if enable_ssl then "ssl:" else "tcp:" in
  let base := if clustered then 3%nat else 1%nat in
  let skip := if 0 <? n_relays then base else 0%nat in
  let count := if 0 <? n_relays then Z.to_nat n_relays else base in
  (gen_cur (iter_hosts net) + Z.of_nat (skip + count)
   <= gen_stop (iter_hosts net) + 1 ->
   calculate_default_node_remotes str_v6 net clustered n_relays enable_ssl =
   Ok (join "," (map (fun k => host_endpoint str_v6 proto net (skip + k))
                     (seq 0 count)))) /\
  (5 <= size net ->
   calculate_default_node_remotes str_v6 net true 0 enable_ssl =
   Ok (join ","
            (map (fun k =>
                    proto +:+
                    IPAddress_str str_v6
                      (mkIP (net_version net) (first net + 1 + k)) +:+
                    ":6642")
                 [0; 1; 2]))).
Proof.
  intros proto base skip count.
  assert (Hgen : forall (c : bool) (r : Z),
    let b := if c then 3%nat else 1%nat in
    let sk := if 0 <? r then b else 0%nat in
    let cnt := if 0 <? r then Z.to_nat r else b in
    gen_cur (iter_hosts net) + Z.of_nat (sk + cnt)
    <= gen_stop (iter_hosts net) + 1 ->
    calculate_default_node_remotes str_v6 net c r enable_ssl =
    Ok (join "," (map (fun k => host_endpoint str_v6 proto net (sk + k))
                      (seq 0 cnt)))).
  { intros c r b sk cnt Hle. unfold calculate_default_node_remotes.
    subst sk cnt proto. destruct (0 <? r) eqn:Er.
    - rewrite skip_hosts_ok by lia. fold b. unfold bind.
      destruct enable_ssl;
        (rewrite take_remotes_ok by (simpl; lia));
        do 2 f_equal; apply map_ext; intros k; unfold host_endpoint; simpl;
        rewrite iter_hosts_version, Nat2Z.inj_add, Z.add_assoc; reflexivity.
    - fold b. unfold bind.
      destruct enable_ssl;
        (rewrite take_remotes_ok by lia);
        do 2 f_equal; apply map_ext; intros k; unfold host_endpoint; simpl;
        rewrite iter_hosts_version; reflexivity. }
  split.
  - apply Hgen.
  - intros Hsize.
    assert (Hcur : gen_cur (iter_hosts net) = first net + 1).
    { unfold iter_hosts.
      replace (4 <=? size net) with true by (symmetry; apply Z.leb_le; lia).
      reflexivity. }
    assert (Hstop : last net - 1 <= gen_stop (iter_hosts net)).
    { unfold iter_hosts.
      replace (4 <=? size net) with true by (symmetry; apply Z.leb_le; lia).
      simpl. destruct (net_version net); lia. }
    rewrite (Hgen true 0).
    + simpl. unfold host_endpoint. rewrite Hcur. reflexivity.
    + simpl. unfold size in Hsize. lia.
Qed.

(** The amended claim at the default [node_net], with two relays. *)
Lemma default_node_remotes_over_hosts_witness :
  calculate_default_node_remotes (fun _ => "")
    (mkNet V4 (192 * 2 ^ 24 + 16 * 2 ^ 16) 16) true 2 false
  = Ok "tcp:192.16.0.4:6642,tcp:192.16.0.5:6642" /\
  calculate_default_node_remotes (fun _ => "")
    (mkNet V4 (192 * 2 ^ 24 + 16 * 2 ^ 16) 16) true 0 false
  = Ok "tcp:192.16.0.1:6642,tcp:192.16.0.2:6642,tcp:192.16.0.3:6642".
Proof.
  pose proof (default_node_remotes_over_hosts
                (fun _ => "") (mkNet V4 (192 * 2 ^ 24 + 16 * 2 ^ 16) 16)
                true 2 false) as [H1 _].
  pose proof (default_node_remotes_over_hosts
                (fun _ => "") (mkNet V4 (192 * 2 ^ 24 + 16 * 2 ^ 16) 16)
                true 0 false) as [_ H2].
  split.
  - rewrite H1; [reflexivity | vm_compute; discriminate].
  - rewrite H2; [reflexivity | vm_compute; discriminate].
Defined.

(** ** Batched membership additions *)

Section Chunks.
Context {A : Type}.
Variable B : nat.
Hypothesis Bpos : (0 < B)%nat.

Lemma slice_shift (l : list A) k :
  slice l (S k * B) (S k * B + B) = slice (skipn B l) (k * B) (k * B + B).
Proof.
  unfold slice. rewrite skipn_skipn.
  replace (S k * B + B - S k * B)%nat with (k * B + B - k * B)%nat by lia.
  replace (S k * B)%nat with (k * B + B)%nat by lia.
  reflexivity.
Qed.

Lemma chunks_concat m (l : list A) :
  (length l <= m * B)%nat ->
  concat (map (fun k => slice l (k * B) (k * B + B)) (seq 0 m)) = l.
Proof.
  revert l. induction m as [|m IH]; intros l Hlen.
  - destruct l; [reflexivity | simpl in Hlen; lia].
  - rewrite <- cons_seq, <- seq_shift, map_cons, map_map, concat_cons.
    rewrite (map_ext _ (fun k => slice (skipn B l) (k * B) (k * B + B)))
      by (intros k; apply slice_shift).
    rewrite IH by (rewrite length_skipn; lia).
    replace (slice l (0 * B) (0 * B + B)) with (firstn B l)
      by (unfold slice; simpl; f_equal; lia).
    apply firstn_skipn.
Qed.

Lemma chunks_length m (l : list A) k :
  ((m - 1) * B < length l)%nat -> (k < m)%nat ->
  (0 < length (slice l (k * B) (k * B + B)) <= B)%nat.
Proof.
  intros Hm Hk. unfold slice.
  rewrite length_firstn, length_skipn.
  assert (k * B <= (m - 1) * B)%nat by (apply Nat.mul_le_mono_r; lia).
  lia.
Qed.

Lemma ceil_div_bounds n :
  let m := ((n + B - 1) / B)%nat in
  (n <= m * B)%nat /\ (m = 0%nat \/ ((m - 1) * B < n)%nat).
Proof.
  intros m.
  pose proof (Nat.div_mod_eq (n + B - 1) B) as Hdm. fold m in Hdm.
  pose proof (Nat.mod_upper_bound (n + B - 1) B ltac:(lia)) as Hr.
  split; [nia|].
  destruct m as [|m']; [left; reflexivity | right; simpl; nia].
Qed.

(** The slices taken by the batching loops are the consecutive
    segments of the list, each non-empty and of at most [B] elements. *)
Lemma range_step_slices (l : list A) :
  let batches := map (fun i => slice l i (i + B)) (range_step (length l) B) in
  concat batches = l /\
  Forall (fun b => (0 < length b <= B)%nat) batches /\
  length batches = ((length l + B - 1) / B)%nat.
Proof.
  unfold range_step. rewrite map_map.
  destruct (ceil_div_bounds (length l)) as [Hup Hlow].
  split; [apply chunks_concat; exact Hup|]. split.
  - apply List.Forall_forall. intros b Hb.
    apply List.in_map_iff in Hb. destruct Hb as (k & <- & Hk).
    apply List.in_seq in Hk.
    destruct Hlow as [H0|Hlow]; [lia|].
    apply (chunks_length ((length l + B - 1) / B)); [exact Hlow | lia].
  - rewrite length_map, length_seq. reflexivity.
Qed.
End Chunks.

(** 1001 ports go out as batches of 500, 500 and 1. *)
Example port_group_add_1001_ports :
  let port k := mkLSPort "" None NoAddr None NoAddr NoAddr NoAddr None NoAddr
                         NoAddr None false (N.of_nat k) in
  map (fun t => match t with PgAddPorts _ b => length b | _ => 0%nat end)
      (txn_log (port_group_add_ports (mkPortGroup "pg") (map port (seq 0 1001))
                                     empty_db))
  = [500; 500; 1]%nat.
Proof. vm_compute. reflexivity. Qed.

Section AlterUnion.
Context `{Countable X}.

Lemma alter_union_union (m : gmap string (gset X)) i (a b : gset X) :
  alter (fun s => s ∪ b) i (alter (fun s => s ∪ a) i m) =
  alter (fun s => s ∪ (a ∪ b)) i m.
Proof.
  apply map_eq. intros j. rewrite !lookup_alter.
  repeat case_decide; try congruence.
  destruct (m !! i); simpl; [| reflexivity].
  f_equal. symmetry. apply (assoc_L (∪)).
Qed.

Lemma alter_union_empty (m : gmap string (gset X)) i :
  alter (fun s => s ∪ ∅) i m = m.
Proof.
  apply map_eq. intros j. rewrite lookup_alter.
  case_decide; [subst j | reflexivity].
  destruct (m !! i); simpl; [| reflexivity].
  f_equal. apply (right_id_L ∅ (∪)).
Qed.
End AlterUnion.

Lemma fold_left_txns {I} (f : I -> NbTxn) (idx : list I) (db : NbDb) :
  fold_left (fun d i => execute_txn (f i) d) idx db = run_txns (map f idx) db.
Proof.
  unfold run_txns. revert db. induction idx as [|i idx IH]; intros db; simpl.
  - reflexivity.
  - apply IH.
Qed.

Lemma run_txns_log ts db : txn_log (run_txns ts db) = txn_log db ++ ts.
Proof.
  unfold run_txns. revert db. induction ts as [|t ts IH]; intros db; simpl.
  - rewrite app_nil_r. reflexivity.
  - rewrite IH. destruct t; simpl; rewrite <- app_assoc; reflexivity.
Qed.

(** Port-group batches accumulate as one union; address sets are not
    touched. *)
Lemma run_pg_batches name (batches : list (list UUID)) db :
  port_groups (run_txns (map (PgAddPorts name) batches) db) =
  alter (fun s => s ∪ list_to_set (concat batches)) name (port_groups db) /\
  address_sets (run_txns (map (PgAddPorts name) batches) db) = address_sets db.
Proof.
  unfold run_txns. revert db.
  induction batches as [|b bs IH]; intros db; cbn [map fold_left concat].
  - split; [symmetry; apply alter_union_empty | reflexivity].
  - destruct (IH (execute_txn (PgAddPorts name b) db)) as [-> ->].
    cbn [execute_txn port_groups address_sets]. split; [|reflexivity].
    rewrite alter_union_union, list_to_set_app_L. reflexivity.
Qed.

Lemma run_as_batches name (batches : list (list string)) db :
  address_sets (run_txns (map (AddressSetAddAddresses name) batches) db) =
  alter (fun s => s ∪ list_to_set (concat batches)) name (address_sets db) /\
  port_groups (run_txns (map (AddressSetAddAddresses name) batches) db) =
  port_groups db.
Proof.
  unfold run_txns. revert db.
  induction batches as [|b bs IH]; intros db; cbn [map fold_left concat].
  - split; [symmetry; apply alter_union_empty | reflexivity].
  - destruct (IH (execute_txn (AddressSetAddAddresses name b) db)) as [-> ->].
    cbn [execute_txn port_groups address_sets]. split; [|reflexivity].
    rewrite alter_union_union, list_to_set_app_L. reflexivity.
Qed.

Lemma concat_singletons {A C} (f : A -> C) (l : list A) :
  concat (map (fun x => [f x]) l) = map f l.
Proof. induction l as [|x l IH]; simpl; [reflexivity | rewrite IH; reflexivity]. Qed.

Lemma slice_map {A C} (f : A -> C) (l : list A) i j :
  map f (slice l i j) = slice (map f l) i j.
Proof. unfold slice. rewrite skipn_map, firstn_map. reflexivity. Qed.

(** The transactions sent by [port_group_add_ports]. *)
Lemma port_group_add_ports_txns pg lports db :
  port_group_add_ports pg lports db =
  run_txns
    (map (PgAddPorts (pg_name pg))
         (map (fun i => slice (map lsp_uuid lports) i (i + MAX_PORTS_IN_BATCH))
              (range_step (length (map lsp_uuid lports)) MAX_PORTS_IN_BATCH)))
    db.
Proof.
  unfold port_group_add_ports.
  rewrite (fold_left_txns
             (fun i => PgAddPorts (pg_name pg)
                         (map lsp_uuid
                              (slice lports i (i + MAX_PORTS_IN_BATCH))))).
  rewrite length_map, map_map. f_equal. apply map_ext. intros i.
  rewrite slice_map. reflexivity.
Qed.

(** The transactions sent by [address_set_add_addrs]. *)
Lemma address_set_add_addrs_txns {A} (str : A -> string) aset addrs db :
  address_set_add_addrs str aset addrs db =
  run_txns
    (map (AddressSetAddAddresses (as_name aset))
         (map (fun i => slice (map str addrs) i (i + MAX_ADDRS_IN_BATCH))
              (range_step (length (map str addrs)) MAX_ADDRS_IN_BATCH)))
    db.
Proof.
  unfold address_set_add_addrs.
  rewrite (fold_left_txns
             (fun i => AddressSetAddAddresses (as_name aset)
                         (map str (slice addrs i (i + MAX_ADDRS_IN_BATCH))))).
  rewrite length_map, map_map. f_equal. apply map_ext. intros i.
  rewrite slice_map. reflexivity.
Qed.

(** C5. A bulk port-group add of the ports [lports] sends
    [ceil(N / 500)] transactions, each for a non-empty batch of at most
    500 ports; the batches are the consecutive segments of the list, so
    that put end to end they are the list itself: nothing is dropped,
    repeated or reordered.  The membership of the group afterwards is
    the one obtained by adding the ports one by one.  The same holds of
    a bulk address-set add. *)
Theorem bulk_adds_are_batched_by_500
        {A : Type} (str : A -> string)
        (pg : PortGroup) (addr_set : AddressSet)
        (lports : list LSPort) (addrs : list A) (db : NbDb) :
  (exists batches : list (list UUID),
     txn_log (port_group_add_ports pg lports db)
     = txn_log db ++ map (PgAddPorts (pg_name pg)) batches /\
     Forall (fun b => (0 < length b <= 500)%nat) batches /\
     length batches = ((length lports + 500 - 1) / 500)%nat /\
     concat batches = map lsp_uuid lports /\
     port_groups (port_group_add_ports pg lports db)
     = port_groups (port_group_add_each pg lports db) /\
     address_sets (port_group_add_ports pg lports db)
     = address_sets (port_group_add_each pg lports db)) /\
  (exists batches : list (list string),
     txn_log (address_set_add_addrs str addr_set addrs db)
     = txn_log db ++ map (AddressSetAddAddresses (as_name addr_set)) batches /\
     Forall (fun b => (0 < length b <= 500)%nat) batches /\
     length batches = ((length addrs + 500 - 1) / 500)%nat /\
     concat batches = map str addrs /\
     address_sets (address_set_add_addrs str addr_set addrs db)
     = address_sets (address_set_add_each addr_set (map str addrs) db) /\
     port_groups (address_set_add_addrs str addr_set addrs db)
     = port_groups (address_set_add_each addr_set (map str addrs) db)).
Proof.
  split.
  - rewrite port_group_add_ports_txns.
    change MAX_PORTS_IN_BATCH with 500%nat.
    destruct (range_step_slices 500 ltac:(lia) (map lsp_uuid lports))
      as (Hcat & Hlen & Hnum).
    eexists. split; [apply run_txns_log|].
    split; [exact Hlen|].
    split; [rewrite Hnum, length_map; reflexivity|].
    split; [exact Hcat|].
    unfold port_group_add_each, port_group_add.
    rewrite (fold_left_txns (fun p => PgAddPorts (pg_name pg) [lsp_uuid p])).
    rewrite <- (map_map (fun p => [lsp_uuid p]) (PgAddPorts (pg_name pg))).
    destruct (run_pg_batches (pg_name pg)
                (map (fun i => slice (map lsp_uuid lports) i (i + 500))
                     (range_step (length (map lsp_uuid lports)) 500)) db)
      as [-> ->].
    destruct (run_pg_batches (pg_name pg)
                (map (fun p => [lsp_uuid p]) lports) db) as [-> ->].
    rewrite Hcat, concat_singletons. split; reflexivity.
  - rewrite address_set_add_addrs_txns.
    change MAX_ADDRS_IN_BATCH with 500%nat.
    destruct (range_step_slices 500 ltac:(lia) (map str addrs))
      as (Hcat & Hlen & Hnum).
    eexists. split; [apply run_txns_log|].
    split; [exact Hlen|].
    split; [rewrite Hnum, length_map; reflexivity|].
    split; [exact Hcat|].
    unfold address_set_add_each.
    rewrite (fold_left_txns
               (fun a => AddressSetAddAddresses (as_name addr_set) [a])).
    rewrite <- (map_map (fun a : string => [a])
                        (AddressSetAddAddresses (as_name addr_set))).
    destruct (run_as_batches (as_name addr_set)
                (map (fun i => slice (map str addrs) i (i + 500))
                     (range_step (length (map str addrs)) 500)) db)
      as [-> ->].
    destruct (run_as_batches (as_name addr_set)
                (map (fun a : string => [a]) (map str addrs)) db) as [-> ->].
    rewrite Hcat, (concat_singletons (fun a : string => a)), map_id.
    split; reflexivity.
Qed.

(** ** Port provisioning *)

Section ProvisionFacts.
Variable rand_mac : nat -> string.
Variable db_uuid : nat -> UUID.

Lemma port_of_same_worker w w' k p :
  same_worker w w' -> port_of w' k p -> port_of w k p.
Proof. unfold port_of. intros (-> & -> & ->) H. exact H. Qed.

Lemma provision_port_spec w created passive p w' created' :
  provision_port rand_mac db_uuid w created passive = Ok (p, w', created') ->
  port_of w (next_lport_index w) p /\
  next_lport_index w' = next_lport_index w + 1 /\
  lports w' = lports w ++ [p] /\
  same_worker w w'.
Proof.
  unfold provision_port.
  destruct (IPAddress_of_int (first (int_net w) + next_lport_index w + 1))
    as [ip|] eqn:Eip; [|discriminate].
  destruct (IPAddress_of_int (last (int_net w) - 1))
    as [gw|] eqn:Egw; [|discriminate].
  destruct (IPAddress_of_int (last (ext_net w) - 2))
    as [ext_gw|] eqn:Eext; [|discriminate].
  simpl. intros [= <- <- <-].
  apply IPAddress_of_int_value in Eip, Egw, Eext.
  unfold port_of, holds_addr, same_worker. simpl.
  repeat split; eauto.
Qed.

Lemma provision_port_total w created passive :
  provisionable w 1 ->
  exists p w', provision_port rand_mac db_uuid w created passive
               = Ok (p, w', S created).
Proof.
  intros (H1 & H2 & H3 & H4). unfold provision_port.
  destruct (IPAddress_of_int_total
              (first (int_net w) + next_lport_index w + 1)) as [ip ->];
    [lia|].
  destruct (IPAddress_of_int_total (last (int_net w) - 1)) as [gw ->];
    [lia|].
  destruct (IPAddress_of_int_total (last (ext_net w) - 2)) as [ext_gw ->];
    [lia|].
  simpl. eauto.
Qed.

Lemma provision_port_list_spec n w created passive ports w' created' :
  provision_port_list rand_mac db_uuid n w created passive
  = Ok (ports, w', created') ->
  length ports = n /\
  (forall k p, ports !! k = Some p ->
               port_of w (next_lport_index w + Z.of_nat k) p) /\
  next_lport_index w' = next_lport_index w + Z.of_nat n /\
  lports w' = lports w ++ ports /\
  same_worker w w'.
Proof.
  revert w created ports w' created'.
  induction n as [|n IH]; intros w created ports w' created'.
  - simpl. intros [= <- <- <-].
    split; [reflexivity|]. split; [intros k p [=]|].
    split; [lia|]. split; [rewrite app_nil_r; reflexivity|].
    repeat split.
  - cbn [provision_port_list].
    destruct (provision_port rand_mac db_uuid w created passive)
      as [[[p1 w1] c1]|] eqn:E1; [|discriminate].
    cbn [bind].
    destruct (provision_port_list rand_mac db_uuid n w1 c1 passive)
      as [[[ps w2] c2]|] eqn:E2; [|discriminate].
    cbn [bind]. intros [= <- <- <-].
    apply provision_port_spec in E1.
    destruct E1 as (Hp1 & Hidx1 & Hl1 & Hsame1).
    apply IH in E2. destruct E2 as (Hlen & Hps & Hidx2 & Hl2 & Hsame2).
    split; [simpl; rewrite Hlen; reflexivity|]. split.
    + intros [|k] p Hk; simpl in Hk.
      * injection Hk as <-. rewrite Z.add_0_r. exact Hp1.
      * apply (port_of_same_worker w w1); [exact Hsame1|].
        replace (next_lport_index w + Z.of_nat (S k))
          with (next_lport_index w1 + Z.of_nat k) by lia.
        apply Hps. exact Hk.
    + split; [lia|].
      split; [rewrite Hl2, Hl1, <- app_assoc; reflexivity|].
      destruct Hsame1 as (A1 & A2 & A3), Hsame2 as (B1 & B2 & B3).
      unfold same_worker. rewrite B1, B2, B3. auto.
Qed.

Lemma provision_port_list_total n w created passive :
  provisionable w (Z.of_nat n) ->
  exists ports w',
    provision_port_list rand_mac db_uuid n w created passive
    = Ok (ports, w', (created + n)%nat).
Proof.
  revert w created. induction n as [|n IH]; intros w created Hprov.
  - simpl. rewrite Nat.add_0_r. eauto.
  - cbn [provision_port_list].
    destruct (provision_port_total w created passive) as (p & w1 & E1).
    { destruct Hprov as (H1 & H2 & H3 & H4). unfold provisionable. lia. }
    rewrite E1. cbn [bind].
    apply provision_port_spec in E1.
    destruct E1 as (_ & Hidx & _ & (S1 & S2 & S3)).
    destruct (IH w1 (S created)) as (ps & w2 & E2).
    { destruct Hprov as (H1 & H2 & H3 & H4). unfold provisionable.
      rewrite S2, S3, Hidx. lia. }
    rewrite E2. cbn [bind].
    replace (S created + n)%nat with (created + S n)%nat by lia. eauto.
Qed.

Lemma fold_bind_port_keeps ports w :
  next_lport_index (fold_left bind_port ports w) = next_lport_index w /\
  lports (fold_left bind_port ports w) = lports w.
Proof.
  revert w. induction ports as [|p ps IH]; intros w; simpl.
  - auto.
  - destruct (IH (bind_port w p)) as [-> ->]. auto.
Qed.
End ProvisionFacts.

(** C6. A port provisioned on the worker [w] while its
    [next_lport_index] is [k] is named [lp-{w.id}-{k}], has the address
    [int_net.first + k + 1], the default gateway [int_net.last - 1] and
    the external gateway [ext_net.last - 2], and provisioning it moves
    the index to [k + 1]; so the ports returned by [provision_ports] are
    numbered consecutively from the index the worker had, which is 0 for
    a new worker.  Provisioning succeeds whenever the addresses computed
    are valid address values. *)
Theorem provisioned_port_is_numbered_by_index
        (rand_mac : nat -> string) (db_uuid : nat -> UUID)
        (w : WorkerNode) (created : nat) (passive : bool) :
  (forall p w' created',
     provision_port rand_mac db_uuid w created passive = Ok (p, w', created') ->
     port_of w (next_lport_index w) p /\
     next_lport_index w' = next_lport_index w + 1 /\
     lports w' = lports w ++ [p]) /\
  (forall n ports w' created',
     provision_ports rand_mac db_uuid w created n passive
     = Ok (ports, w', created') ->
     length ports = Z.to_nat n /\
     (forall k p, ports !! k = Some p ->
                  port_of w (next_lport_index w + Z.of_nat k) p) /\
     next_lport_index w' = next_lport_index w + Z.of_nat (Z.to_nat n) /\
     lports w' = lports w ++ ports) /\
  (forall n, 0 <= n -> provisionable w n ->
             exists ports w' created',
               provision_ports rand_mac db_uuid w created n passive
               = Ok (ports, w', created')).
Proof.
  split; [|split].
  - intros p w' created' H.
    apply provision_port_spec in H. tauto.
  - intros n ports w' created'. unfold provision_ports.
    destruct (provision_port_list rand_mac db_uuid (Z.to_nat n) w created passive)
      as [[[ps w1] c1]|] eqn:E; [|discriminate].
    cbn [bind]. intros [= <- <- <-].
    apply provision_port_list_spec in E.
    destruct E as (Hlen & Hps & Hidx & Hl & _).
    destruct (fold_bind_port_keeps ps w1) as [-> ->]. auto.
  - intros n Hn Hprov. unfold provision_ports.
    destruct (provision_port_list_total rand_mac db_uuid (Z.to_nat n) w
                                        created passive) as (ps & w1 & E).
    { rewrite Z2Nat.id by exact Hn. exact Hprov. }
    rewrite E. cbn [bind]. eauto.
Qed.

(** The theorem for a new worker 3 on 16.0.0.0/16 with the external
    network 3.0.0.0/16: its second port is [lp-3-1] at 16.0.0.2. *)
Lemma provisioned_port_is_numbered_by_index_witness :
  let w := WorkerNode_init "ovn-scale-3" (mkNet V4 (16 * 2 ^ 24) 16)
                           (mkNet V4 (3 * 2 ^ 24) 16)
                           (mkNet V4 (2 * 2 ^ 24) 16) 3 in
  exists ports w' created',
    provision_ports (fun _ => "02:00:00:00:00:01") N.of_nat w 0 2 false
    = Ok (ports, w', created') /\
    exists p, ports !! 1%nat = Some p /\
              port_of w 1 p /\ lsp_name p = "lp-3-1" /\
              lsp_ip p = Addr (mkIP V4 (16 * 2 ^ 24 + 2)).
Proof.
  intros w.
  pose proof (provisioned_port_is_numbered_by_index
                (fun _ => "02:00:00:00:00:01") N.of_nat w 0 false)
    as (_ & Hspec & Htot).
  destruct (Htot 2) as (ports & w' & created' & E).
  - lia.
  - vm_compute. repeat split; discriminate.
  - exists ports, w', created'. split; [exact E|].
    destruct (Hspec 2 ports w' created' E) as (_ & Hk & _).
    clear Hspec Htot. vm_compute in E. injection E as <- <- <-.
    eexists. split; [reflexivity|].
    split; [exact (Hk 1%nat _ eq_refl)|]. split; reflexivity.
Defined.

(** ** Namespaces *)

Lemma port_group_add_ports_effect pg lports db :
  port_groups (port_group_add_ports pg lports db) =
  alter (fun s => s ∪ list_to_set (map lsp_uuid lports)) (pg_name pg)
        (port_groups db) /\
  address_sets (port_group_add_ports pg lports db) = address_sets db.
Proof.
  rewrite port_group_add_ports_txns.
  destruct (run_pg_batches (pg_name pg)
              (map (fun i => slice (map lsp_uuid lports) i
                                   (i + MAX_PORTS_IN_BATCH))
                   (range_step (length (map lsp_uuid lports))
                               MAX_PORTS_IN_BATCH)) db) as [-> ->].
  destruct (range_step_slices MAX_PORTS_IN_BATCH ltac:(unfold MAX_PORTS_IN_BATCH; lia)
                              (map lsp_uuid lports)) as (-> & _).
  split; reflexivity.
Qed.

Lemma address_set_add_addrs_effect {A} (str : A -> string) aset addrs db :
  address_sets (address_set_add_addrs str aset addrs db) =
  alter (fun s => s ∪ list_to_set (map str addrs)) (as_name aset)
        (address_sets db) /\
  port_groups (address_set_add_addrs str aset addrs db) = port_groups db.
Proof.
  rewrite address_set_add_addrs_txns.
  destruct (run_as_batches (as_name aset)
              (map (fun i => slice (map str addrs) i (i + MAX_ADDRS_IN_BATCH))
                   (range_step (length (map str addrs)) MAX_ADDRS_IN_BATCH))
              db) as [-> ->].
  destruct (range_step_slices MAX_ADDRS_IN_BATCH ltac:(unfold MAX_ADDRS_IN_BATCH; lia)
                              (map str addrs)) as (-> & _).
  split; reflexivity.
Qed.

(** Adding the same members to three rows, whatever their names. *)
Lemma alter3_lookup (m : gmap string (gset UUID)) (u : gset UUID) a b c n :
  alter (fun s => s ∪ u) c (alter (fun s => s ∪ u) b
                                  (alter (fun s => s ∪ u) a m)) !! n =
  if decide (n = a \/ n = b \/ n = c) then extended m n u else m !! n.
Proof.
  unfold extended. rewrite !lookup_alter.
  assert (Hidem : forall s : gset UUID, s ∪ u ∪ u = s ∪ u).
  { intros s. rewrite <- (assoc_L (∪)), (idemp_L (∪)). reflexivity. }
  repeat case_decide; subst; try reflexivity;
    try (exfalso; intuition congruence);
    destruct (m !! _); simpl; rewrite ?Hidem; reflexivity.
Qed.

(** C8. [add_ports(ps)] appends [ps] to the namespace's ports and
    always adds their addresses to the namespace's address set.  When
    the namespace is enforcing, the ports join each of its three port
    groups ([pg_def_deny_igr], [pg_def_deny_egr], [pg]) and no other;
    when it is not, every port group is left as it was. *)
Theorem add_ports_address_set_always_groups_iff_enforcing
        (str_v6 : Z -> string)
        (ns : Namespace) (ports : list LSPort) (db : NbDb) :
  let ns' := fst (add_ports str_v6 ns ports db) in
  let db' := snd (add_ports str_v6 ns ports db) in
  let ips : gset string :=
    list_to_set (map (fun p => str_addr str_v6 (lsp_ip p)) ports) in
  let uuids : gset UUID := list_to_set (map lsp_uuid ports) in
  let groups := [pg_name (pg_def_deny_igr ns); pg_name (pg_def_deny_egr ns);
                 pg_name (pg ns)] in
  ns_ports ns' = ns_ports ns ++ ports /\
  enforcing ns' = enforcing ns /\
  (forall name,
     address_sets db' !! name =
     if decide (name = as_name (addr_set ns))
     then extended (address_sets db) name ips
     else address_sets db !! name) /\
  (enforcing ns = true ->
   forall name,
     port_groups db' !! name =
     if decide (In name groups)
     then extended (port_groups db) name uuids
     else port_groups db !! name) /\
  (enforcing ns = false -> port_groups db' = port_groups db).
Proof.
  intros ns' db' ips uuids groups. subst ns' db'. unfold add_ports.
  cbn [enforcing addr_set pg_def_deny_igr pg_def_deny_egr pg].
  destruct (address_set_add_addrs_effect
              (fun a : string => a) (addr_set ns)
              (map (fun p => str_addr str_v6 (lsp_ip p)) ports) db)
    as [Has Hpg].
  rewrite map_id in Has. fold ips in Has.
  assert (Hlook : forall (m : gmap string (gset string)) name,
             alter (fun s => s ∪ ips) (as_name (addr_set ns)) m !! name =
             if decide (name = as_name (addr_set ns))
             then extended m name ips else m !! name).
  { intros m name. unfold extended. rewrite lookup_alter.
    repeat case_decide; subst; congruence. }
  destruct (enforcing ns) eqn:Eenf; cbn [fst snd ns_ports enforcing].
  - split; [reflexivity|]. split; [reflexivity|].
    repeat match goal with
           | |- context [port_group_add_ports ?g ?l ?d] =>
               let H1 := fresh in let H2 := fresh in
               destruct (port_group_add_ports_effect g l d) as [H1 H2];
               rewrite ?H1, ?H2; clear H1 H2
           end.
    rewrite Has, Hpg. fold uuids.
    split; [apply Hlook|]. split; [|discriminate].
    intros _ name. rewrite alter3_lookup. subst groups. simpl.
    repeat case_decide; try reflexivity; exfalso; intuition congruence.
  - split; [reflexivity|]. split; [reflexivity|].
    rewrite Has. split; [apply Hlook|]. split; [discriminate|].
    intros _. exact Hpg.
Qed.

(** The theorem on a namespace [ns1] with two ports: added before the
    namespace enforces, a port reaches the address set only; added
    after, it reaches the port groups too. *)
Lemma add_ports_address_set_always_groups_iff_enforcing_witness :
  let str_v6 := fun _ : Z => "" in
  let port (k : Z) :=
    ls_port_add (Z.to_N k) None ("lp-0-" +:+ str_int k) None
                (Addr (mkIP V4 (16 * 2 ^ 24 + k + 1))) (Some 16)
                NoAddr NoAddr (Some 0) false true in
  let created := create_namespace 0 "ns1" empty_db in
  let ns0 := fst (fst created) in
  let db0 := snd created in
  let db1 := snd (add_ports str_v6 ns0 [port 0] db0) in
  let ns2 := fst (enforce (fst (add_ports str_v6 ns0 [port 0] db0)) db1) in
  let db2 := snd (enforce (fst (add_ports str_v6 ns0 [port 0] db0)) db1) in
  let db3 := snd (add_ports str_v6 ns2 [port 1] db2) in
  port_groups db1 = port_groups db0 /\
  address_sets db1 !! "as_ns1" = Some {[ "16.0.0.1" ]} /\
  port_groups db3 !! "pg_ns1" = Some {[ 0%N; 1%N ]} /\
  address_sets db3 !! "as_ns1" = Some {[ "16.0.0.1"; "16.0.0.2" ]}.
Proof.
  intros str_v6 port created ns0 db0 db1 ns2 db2 db3.
  pose proof (add_ports_address_set_always_groups_iff_enforcing
                str_v6 ns0 [port 0] db0) as (_ & _ & Has1 & _ & Hoff).
  pose proof (add_ports_address_set_always_groups_iff_enforcing
                str_v6 ns2 [port 1] db2) as (_ & _ & Has3 & Hon & _).
  subst db1 db3.
  split; [exact (Hoff eq_refl)|].
  split; [rewrite (Has1 "as_ns1"); vm_compute; reflexivity|].
  split.
  - rewrite (Hon eq_refl "pg_ns1"). vm_compute. reflexivity.
  - rewrite (Has3 "as_ns1"). vm_compute. reflexivity.
Defined.

(** ** Central node commands *)

(** C9 does not hold of the code.  For a single database and one relay,
    as [create_nodes] names them, the two commands for the database
    container are correctly spaced, but the one for the relay glues the
    container name to [ovs-appctl]. *)
Theorem relay_trim_command_lacks_space :
  let node := mkCentralNode (db_containers false) (relay_containers 1) in
  enable_trim_on_compaction node =
  [ "docker exec ovn-central ovs-appctl -t /run/ovn/ovnnb_db.ctl ovsdb-server/memory-trim-on-compaction on";
    "docker exec ovn-central ovs-appctl -t /run/ovn/ovnsb_db.ctl ovsdb-server/memory-trim-on-compaction on";
    "docker exec ovn-relay-1ovs-appctl -t /run/ovn/ovnsb_db.ctl ovsdb-server/memory-trim-on-compaction on" ] /\
  map (correctly_spaced "ovn-central") (firstn 2 (enable_trim_on_compaction node))
  = [true; true] /\
  map (correctly_spaced "ovn-relay-1") (skipn 2 (enable_trim_on_compaction node))
  = [false].
Proof.
  intros node. split; [reflexivity|]. split; reflexivity.
Qed.

(** * Further properties *)

(** ** Default node remotes on small networks *)

Section RemotesBounds.
Variable str_v6 : Z -> string.

Lemma skip_hosts_stop n g :
  (0 < n)%nat ->
  gen_stop g + 1 < gen_cur g + Z.of_nat n ->
  skip_hosts n g = Raise StopIteration.
Proof.
  revert g. induction n as [|n IH]; intros g Hpos Hlt; [lia|].
  simpl. unfold next. destruct (gen_cur g <=? gen_stop g) eqn:E.
  - apply Z.leb_le in E. simpl.
    destruct n as [|n']; [lia|]. apply IH; [lia | simpl; lia].
  - reflexivity.
Qed.

Lemma take_remotes_stop proto n g :
  (0 < n)%nat ->
  gen_stop g + 1 < gen_cur g + Z.of_nat n ->
  take_remotes str_v6 proto n g = Raise StopIteration.
Proof.
  revert g. induction n as [|n IH]; intros g Hpos Hlt; [lia|].
  simpl. unfold next. destruct (gen_cur g <=? gen_stop g) eqn:E.
  - apply Z.leb_le in E. simpl.
    destruct n as [|n']; [lia|]. rewrite IH by (simpl; lia). reflexivity.
  - reflexivity.
Qed.

(** X1. [calculate_default_node_remotes] never returns a shortened list:
    when [node_net] yields fewer hosts than the hosts skipped plus the
    endpoints wanted, it raises [StopIteration]; a clustered database on
    a /30 is such a case. *)
Theorem default_node_remotes_stop_iteration
        (net : IPNetwork) (clustered : bool) (n_relays : Z) (enable_ssl : bool) :
  let base := if clustered then 3%nat else 1%nat in
  let skip := if 0 <? n_relays then base else 0%nat in
  let count := if 0 <? n_relays then Z.to_nat n_relays else base in
  gen_stop (iter_hosts net) + 1
  < gen_cur (iter_hosts net) + Z.of_nat (skip + count) ->
  calculate_default_node_remotes str_v6 net clustered n_relays enable_ssl
  = Raise StopIteration.
Proof.
  intros base skip count Hlt. unfold calculate_default_node_remotes.
  subst base skip count.
  destruct (0 <? n_relays) eqn:Er.
  - apply Z.ltb_lt in Er.
    set (b := if clustered then 3%nat else 1%nat) in *.
    assert (Hb : (0 < b)%nat) by (subst b; destruct clustered; lia).
    destruct (Z_le_gt_dec (gen_cur (iter_hosts net) + Z.of_nat b)
                          (gen_stop (iter_hosts net) + 1)) as [Hok|Hbad].
    + rewrite skip_hosts_ok by exact Hok. unfold bind.
      destruct enable_ssl;
        (rewrite take_remotes_stop by (simpl; lia)); reflexivity.
    + rewrite skip_hosts_stop by lia. reflexivity.
  - unfold bind. simpl in Hlt.
    assert (Hb : (0 < if clustered then 3 else 1)%nat)
      by (destruct clustered; lia).
    destruct enable_ssl; (rewrite take_remotes_stop by lia); reflexivity.
Qed.
End RemotesBounds.

(** A clustered database on 10.0.0.0/30, which has two hosts. *)
Lemma default_node_remotes_stop_iteration_witness :
  calculate_default_node_remotes (fun _ => "")
    (mkNet V4 (10 * 2 ^ 24) 30) true 0 true = Raise StopIteration.
Proof.
  apply (default_node_remotes_stop_iteration
           (fun _ => "") (mkNet V4 (10 * 2 ^ 24) 30) true 0 true).
  vm_compute. reflexivity.
Defined.

(** ** Errors of the dual-stack enumerations *)

Lemma max_int_values :
  max_int V4 = 4294967295 /\
  max_int V6 = 340282366920938463463374607431768211455.
Proof. split; reflexivity. Qed.

Lemma IPAddress_of_int_range v a :
  IPAddress_of_int v = Ok a -> 0 <= v <= max_int V6.
Proof.
  unfold IPAddress_of_int. destruct max_int_values as [-> ->].
  destruct ((0 <=? v) && (v <=? 4294967295)) eqn:E4.
  - intros _. apply andb_prop in E4. destruct E4 as [H1 H2].
    apply Z.leb_le in H1, H2. lia.
  - destruct ((4294967295 <? v) &&
              (v <=? 340282366920938463463374607431768211455)) eqn:E6;
      [|discriminate].
    intros _. apply andb_prop in E6. destruct E6 as [H1 H2].
    apply Z.ltb_lt in H1. apply Z.leb_le in H2. lia.
Qed.

Lemma IPAddress_of_int_error v e :
  IPAddress_of_int v = Raise e -> e = AddrFormatError.
Proof.
  unfold IPAddress_of_int.
  destruct (_ && _); [discriminate|].
  destruct (_ && _); [discriminate|]. intros [= <-]. reflexivity.
Qed.

(** The errors of an enumeration, whichever end it counts from. *)
Lemma dual_stack_pick_errors (pick : IPNetwork -> Z) s e :
  match n4 s, n6 s with
  | Some net4, Some net6 =>
      let* a4 := IPAddress_of_int (pick net4) in
      let* a6 := IPAddress_of_int (pick net6) in
      Ok (mkDualStackIP (Some a4) (Some (prefixlen net4))
                        (Some a6) (Some (prefixlen net6)))
  | Some net4, None =>
      let* a4 := IPAddress_of_int (pick net4) in
      Ok (mkDualStackIP (Some a4) (Some (prefixlen net4)) None None)
  | None, Some net6 =>
      let* a6 := IPAddress_of_int (pick net6) in
      Ok (mkDualStackIP None None (Some a6) (Some (prefixlen net6)))
  | None, None => Raise OvnInvalidConfigException
  end = Raise e ->
  (e = OvnInvalidConfigException /\ n4 s = None /\ n6 s = None) \/
  (e = AddrFormatError /\ (is_Some (n4 s) \/ is_Some (n6 s)) /\
   ~ in_range pick s).
Proof.
  unfold in_range.
  destruct (n4 s) as [net4|] eqn:E4, (n6 s) as [net6|] eqn:E6; simpl.
  - destruct (IPAddress_of_int (pick net4)) as [a4|e4] eqn:A4; simpl.
    + destruct (IPAddress_of_int (pick net6)) as [a6|e6] eqn:A6; simpl;
        [discriminate|].
      intros [= <-]. right. pose proof (IPAddress_of_int_error _ _ A6) as ->.
      split; [reflexivity|]. split; [left; eauto|].
      intros Hr. destruct (IPAddress_of_int_total (pick net6)) as [a Ha];
        [apply Hr; auto | congruence].
    + intros [= <-]. right. pose proof (IPAddress_of_int_error _ _ A4) as ->.
      split; [reflexivity|]. split; [left; eauto|].
      intros Hr. destruct (IPAddress_of_int_total (pick net4)) as [a Ha];
        [apply Hr; auto | congruence].
  - destruct (IPAddress_of_int (pick net4)) as [a4|e4] eqn:A4; simpl;
      [discriminate|].
    intros [= <-]. right. pose proof (IPAddress_of_int_error _ _ A4) as ->.
    split; [reflexivity|]. split; [left; eauto|].
    intros Hr. destruct (IPAddress_of_int_total (pick net4)) as [a Ha];
      [apply Hr; auto | congruence].
  - destruct (IPAddress_of_int (pick net6)) as [a6|e6] eqn:A6; simpl;
      [discriminate|].
    intros [= <-]. right. pose proof (IPAddress_of_int_error _ _ A6) as ->.
    split; [reflexivity|]. split; [right; eauto|].
    intros Hr. destruct (IPAddress_of_int_total (pick net6)) as [a Ha];
      [apply Hr; auto | congruence].
  - intros [= <-]. left. auto.
Qed.

(** X2. [forward] and [reverse] fail in two ways only: with
    [OvnInvalidConfigException] exactly when the subnet has no family,
    and with the address error of the library exactly when a family is
    present and some address picked is not a valid address value. *)
Theorem dual_stack_errors (s : DualStackSubnet) (i : Z) (e : exn) :
  (forward s i = Raise e <->
   (e = OvnInvalidConfigException /\ n4 s = None /\ n6 s = None) \/
   (e = AddrFormatError /\ (is_Some (n4 s) \/ is_Some (n6 s)) /\
    ~ in_range (fun net => first net + i) s)) /\
  (reverse s i = Raise e <->
   (e = OvnInvalidConfigException /\ n4 s = None /\ n6 s = None) \/
   (e = AddrFormatError /\ (is_Some (n4 s) \/ is_Some (n6 s)) /\
    ~ in_range (fun net => last net - i) s)).
Proof.
  assert (Hgen : forall (pick : IPNetwork -> Z) (run : result DualStackIP),
    run = match n4 s, n6 s with
          | Some net4, Some net6 =>
              let* a4 := IPAddress_of_int (pick net4) in
              let* a6 := IPAddress_of_int (pick net6) in
              Ok (mkDualStackIP (Some a4) (Some (prefixlen net4))
                                (Some a6) (Some (prefixlen net6)))
          | Some net4, None =>
              let* a4 := IPAddress_of_int (pick net4) in
              Ok (mkDualStackIP (Some a4) (Some (prefixlen net4)) None None)
          | None, Some net6 =>
              let* a6 := IPAddress_of_int (pick net6) in
              Ok (mkDualStackIP None None (Some a6) (Some (prefixlen net6)))
          | None, None => Raise OvnInvalidConfigException
          end ->
    (run = Raise e <->
     (e = OvnInvalidConfigException /\ n4 s = None /\ n6 s = None) \/
     (e = AddrFormatError /\ (is_Some (n4 s) \/ is_Some (n6 s)) /\
      ~ in_range pick s))).
  { intros pick run ->. split.
    - apply dual_stack_pick_errors.
    - intros [(-> & H4 & H6)|(-> & Hfam & Hr)].
      + rewrite H4, H6. reflexivity.
      + match goal with |- ?r = _ => destruct r as [d|e'] eqn:Er end.
        * exfalso. apply Hr. intros net Hnet.
          destruct (dual_stack_pick_sound pick s d _ eq_refl Er)
            as (_ & H4 & H6).
          destruct Hnet as [Hnet|Hnet].
          -- destruct (H4 net Hnet) as (a & Ha & Hv).
             destruct (n4 s) as [n|] eqn:E4; [|discriminate].
             injection Hnet as ->. clear H4 H6.
             revert Er. destruct (n6 s) as [m|]; simpl;
               destruct (IPAddress_of_int (pick net)) as [x|] eqn:Ex;
               try discriminate; intros _;
               apply (IPAddress_of_int_range _ _ Ex).
          -- destruct (n6 s) as [m|] eqn:E6; [|discriminate].
             injection Hnet as ->. clear H4 H6.
             revert Er. destruct (n4 s) as [n|]; simpl.
             ++ destruct (IPAddress_of_int (pick n)) as [y|]; simpl;
                  [|discriminate].
                destruct (IPAddress_of_int (pick net)) as [x|] eqn:Ex;
                  [|discriminate].
                intros _. apply (IPAddress_of_int_range _ _ Ex).
             ++ destruct (IPAddress_of_int (pick net)) as [x|] eqn:Ex;
                  [|discriminate].
                intros _. apply (IPAddress_of_int_range _ _ Ex).
        * apply dual_stack_pick_errors in Er.
          destruct Er as [(_ & H4 & H6)|(-> & _)]; [|reflexivity].
          destruct Hfam as [[? Hs]|[? Hs]]; congruence. }
  split.
  - apply (Hgen (fun net => first net + i)). reflexivity.
  - apply (Hgen (fun net => last net - i)). reflexivity.
Qed.

(** X3. Counting from the two ends meets: on a subnet whose families
    have [sz] addresses each (a single-family subnet in particular),
    [reverse(sz - 1 - i)] is [forward(i)], as a result or as an error. *)
Theorem forward_reverse_meet (s : DualStackSubnet) (sz i : Z) :
  (forall net, n4 s = Some net \/ n6 s = Some net -> size net = sz) ->
  reverse s (sz - 1 - i) = forward s i.
Proof.
  intros Hsz. unfold reverse, forward.
  assert (Hmeet : forall net, n4 s = Some net \/ n6 s = Some net ->
                              last net - (sz - 1 - i) = first net + i).
  { intros net Hnet. specialize (Hsz net Hnet). unfold size in Hsz. lia. }
  destruct (n4 s) as [net4|], (n6 s) as [net6|];
    rewrite ?(Hmeet net4), ?(Hmeet net6) by auto; reflexivity.
Qed.

(** On 16.0.0.0/16 the address 65534 places from the top is the first
    host. *)
Lemma forward_reverse_meet_witness :
  let s := mkDualStackSubnet (Some (mkNet V4 (16 * 2 ^ 24) 16)) None in
  reverse s 65534 = forward s 1 /\
  forward s 1 = Ok (mkDualStackIP (Some (mkIP V4 (16 * 2 ^ 24 + 1))) (Some 16)
                                  None None).
Proof.
  intros s. split; [|reflexivity].
  apply (forward_reverse_meet s 65536 1).
  intros net [[= <-]|[=]]. reflexivity.
Defined.

(** ** The wait type of a transaction *)

Lemma lower_ascii_idempotent c : lower_ascii (lower_ascii c) = lower_ascii c.
Proof.
  destruct c as [[] [] [] [] [] [] [] []]; reflexivity.
Qed.

Lemma lower_idempotent s : lower (lower s) = lower s.
Proof.
  induction s as [|c s IH]; simpl; [reflexivity|].
  rewrite lower_ascii_idempotent, IH. reflexivity.
Qed.

(** X4. Whatever wait type a transaction is built with, the one it keeps
    is [None], [sb] or [hv], so that the last branch of
    [nb_has_completed] is indeed the [hv] case; the normalisation does
    not depend on the case of the letters, and building a transaction
    from a kept wait type changes nothing and warns of nothing. *)
Theorem wait_type_is_normalised (tmo : Z) (chk : bool) (wait : option string) :
  let t := fst (NBTransaction_init tmo chk wait) in
  (wait_type t = None \/ wait_type t = Some "sb" \/ wait_type t = Some "hv") /\
  NBTransaction_init tmo chk (option_map lower wait)
  = NBTransaction_init tmo chk wait /\
  NBTransaction_init tmo chk (wait_type t) = (t, []).
Proof.
  intros t. subst t.
  destruct wait as [[|c w]|]; try (simpl; auto; fail).
  unfold NBTransaction_init.
  change (truthy (Some (String c w))) with true.
  change (truthy (option_map lower (Some (String c w)))) with true.
  cbn [option_map]. rewrite lower_idempotent.
  change (truthy (Some (lower (String c w)))) with true. cbn iota.
  unfold str_eq.
  destruct (String.eqb_spec (lower (String c w)) "sb") as [Esb|Nsb].
  - rewrite Esb. simpl. auto.
  - destruct (String.eqb_spec (lower (String c w)) "hv") as [Ehv|Nhv].
    + rewrite Ehv. simpl. auto.
    + simpl. auto.
Qed.

(** ** More on the sync barrier *)

Lemma poll_loop_counts t next env p :
  (p <= snd (poll_loop t next env p))%nat.
Proof.
  revert p. induction env as [|tk env IH]; intros p; simpl; [lia|].
  destruct (timeout_exceeded t tk); simpl; [lia|].
  destruct (nb_has_completed t (row tk) next); simpl; [lia|].
  specialize (IH (S p)). lia.
Qed.

(** A longer deadline keeps a return as it is. *)
Lemma poll_loop_longer_deadline tmo tmo' chk wt next env p q :
  tmo <= tmo' ->
  poll_loop (mkNBTransaction tmo chk wt) next env p = (Returned, q) ->
  poll_loop (mkNBTransaction tmo' chk wt) next env p = (Returned, q).
Proof.
  intros Hle. revert p. induction env as [|tk env IH]; intros p; simpl.
  - discriminate.
  - change (timeout_exceeded (mkNBTransaction tmo chk wt) tk)
      with (tmo <? elapsed tk).
    change (timeout_exceeded (mkNBTransaction tmo' chk wt) tk)
      with (tmo' <? elapsed tk).
    destruct (tmo <? elapsed tk) eqn:E; [discriminate|].
    apply Z.ltb_ge in E.
    replace (tmo' <? elapsed tk) with false
      by (symmetry; apply Z.ltb_ge; lia).
    change (nb_has_completed (mkNBTransaction tmo' chk wt) (row tk) next)
      with (nb_has_completed (mkNBTransaction tmo chk wt) (row tk) next).
    destruct (nb_has_completed _ _ _); [auto | apply IH].
Qed.

(** Where the [hv] barrier is reached, so is the [sb] barrier. *)
Lemma poll_loop_hv_sb tmo chk next env p q :
  poll_loop (mkNBTransaction tmo chk (Some "hv")) next env p = (Returned, q) ->
  exists q', (q' <= q)%nat /\
    poll_loop (mkNBTransaction tmo chk (Some "sb")) next env p = (Returned, q').
Proof.
  revert p. induction env as [|tk env IH]; intros p; simpl.
  - discriminate.
  - change (timeout_exceeded (mkNBTransaction tmo chk (Some "hv")) tk)
      with (tmo <? elapsed tk).
    change (timeout_exceeded (mkNBTransaction tmo chk (Some "sb")) tk)
      with (tmo <? elapsed tk).
    destruct (tmo <? elapsed tk); [discriminate|].
    change (nb_has_completed (mkNBTransaction tmo chk (Some "hv")) (row tk) next)
      with (next <=? Z.min (sb_cfg (row tk)) (hv_cfg (row tk))).
    change (nb_has_completed (mkNBTransaction tmo chk (Some "sb")) (row tk) next)
      with (next <=? sb_cfg (row tk)).
    destruct (next <=? Z.min (sb_cfg (row tk)) (hv_cfg (row tk))) eqn:Ehv.
    + intros [= <-]. apply Z.leb_le in Ehv.
      replace (next <=? sb_cfg (row tk)) with true
        by (symmetry; apply Z.leb_le; lia).
      eauto.
    + intros H. destruct (next <=? sb_cfg (row tk)).
      * exists (S p). split; [|reflexivity].
        pose proof (poll_loop_counts
                      (mkNBTransaction tmo chk (Some "hv")) next env (S p)) as Hc.
        rewrite H in Hc. exact Hc.
      * apply IH. exact H.
Qed.

(** X5. A sync that returned within its deadline returns in the same
    way, after the same polls, under any longer deadline. *)
Theorem sync_longer_deadline
        (wait : string) (tmo tmo' cfg : Z) (env : list Tick) :
  lower wait = "sb" \/ lower wait = "hv" ->
  tmo <= tmo' ->
  run_outcome (sync (Some wait) tmo cfg env) = Returned ->
  run_log (sync (Some wait) tmo cfg env) = [] ->
  sync (Some wait) tmo' cfg env = sync (Some wait) tmo cfg env.
Proof.
  intros Hwt Hle. rewrite !(sync_waits wait _ cfg env Hwt).
  destruct (poll_loop (mkNBTransaction tmo true (Some (lower wait)))
                      (cfg + 1) env 0) as [[|e|] q] eqn:E.
  - intros _ _.
    rewrite (poll_loop_longer_deadline tmo tmo' true _ _ _ _ _ Hle E).
    reflexivity.
  - destruct e; simpl; intros H1 H2; discriminate.
  - simpl. discriminate.
Qed.

Lemma sync_longer_deadline_witness :
  let env := [mkTick 0 (mkNB 5 4 4); mkTick 70 (mkNB 5 5 5)] in
  sync (Some "hv") 120 4 env = sync (Some "hv") 90 4 env /\
  run_polls (sync (Some "hv") 90 4 env) = 2%nat.
Proof.
  intros env. split; [|reflexivity].
  apply (sync_longer_deadline "hv" 90 120 4 env);
    [right; reflexivity | lia | reflexivity | reflexivity].
Defined.

(** X6. Waiting for [hv] is at least as strong as waiting for [sb]:
    under the same observations and deadline, when a sync on [hv]
    returns within the deadline, so does a sync on [sb], after no more
    polls. *)
Theorem sync_hv_implies_sb
        (wait_hv wait_sb : string) (tmo cfg : Z) (env : list Tick) :
  lower wait_hv = "hv" -> lower wait_sb = "sb" ->
  run_outcome (sync (Some wait_hv) tmo cfg env) = Returned ->
  run_log (sync (Some wait_hv) tmo cfg env) = [] ->
  run_outcome (sync (Some wait_sb) tmo cfg env) = Returned /\
  run_log (sync (Some wait_sb) tmo cfg env) = [] /\
  (run_polls (sync (Some wait_sb) tmo cfg env)
   <= run_polls (sync (Some wait_hv) tmo cfg env))%nat.
Proof.
  intros Hhv Hsb.
  rewrite (sync_waits wait_hv tmo cfg env (or_intror Hhv)).
  rewrite (sync_waits wait_sb tmo cfg env (or_introl Hsb)).
  rewrite Hhv, Hsb.
  destruct (poll_loop (mkNBTransaction tmo true (Some "hv"))
                      (cfg + 1) env 0) as [[|e|] q] eqn:E.
  - intros _ _. apply poll_loop_hv_sb in E.
    destruct E as (q' & Hq & ->). simpl. auto.
  - destruct e; simpl; intros H1 H2; discriminate.
  - simpl. discriminate.
Qed.

Lemma sync_hv_implies_sb_witness :
  let env := [mkTick 0 (mkNB 5 4 4); mkTick 1 (mkNB 5 5 4);
              mkTick 2 (mkNB 5 5 5)] in
  run_polls (sync (Some "sb") 60 4 env) = 2%nat /\
  run_polls (sync (Some "hv") 60 4 env) = 3%nat /\
  run_outcome (sync (Some "sb") 60 4 env) = Returned.
Proof.
  intros env. split; [reflexivity|]. split; [reflexivity|].
  apply (sync_hv_implies_sb "hv" "sb" 60 4 env); reflexivity.
Defined.

(** ** Spacing of the trim commands *)

Lemma append_cons x a b : String x a +:+ b = String x (a +:+ b).
Proof. reflexivity. Qed.

Lemma append_nil b : "" +:+ b = b.
Proof. reflexivity. Qed.

Lemma prefix_append_same a b c :
  String.prefix (a +:+ b) (a +:+ c) = String.prefix b c.
Proof.
  induction a as [|x a IH]; [rewrite !append_nil; reflexivity|].
  rewrite !append_cons. simpl.
  destruct (ascii_dec x x) as [_|Hne]; [exact IH | contradiction].
Qed.

Lemma prefix_append p s : String.prefix p (p +:+ s) = true.
Proof.
  induction p as [|x p IH]; [rewrite append_nil; destruct s; reflexivity|].
  rewrite append_cons. simpl.
  destruct (ascii_dec x x) as [_|Hne]; [exact IH | contradiction].
Qed.

Lemma append_assoc3 a b c : (a +:+ b) +:+ c = a +:+ (b +:+ c).
Proof.
  induction a as [|x a IH]; [rewrite !append_nil; reflexivity|].
  rewrite !append_cons, IH. reflexivity.
Qed.

Lemma flat_map_pairs_length {A C} (f g : A -> C) (l : list A) :
  length (flat_map (fun x => [f x; g x]) l) = (2 * length l)%nat.
Proof. induction l as [|x l IH]; simpl; [reflexivity | rewrite IH; lia]. Qed.

(** X7. Whatever the containers are called, [enable_trim_on_compaction]
    runs two commands per database container, each correctly spaced, and
    then one command per relay container, none of which is: the
    container name always runs into [ovs-appctl]. *)
Theorem trim_commands_spacing (node : CentralNode) :
  let cmds := enable_trim_on_compaction node in
  let n_db := length (cn_db_containers node) in
  length cmds = (2 * n_db + length (cn_relay_containers node))%nat /\
  Forall (fun cmd => exists c, In c (cn_db_containers node) /\
                               correctly_spaced c cmd = true)
         (firstn (2 * n_db) cmds) /\
  Forall2 (fun c cmd => correctly_spaced c cmd = false)
          (cn_relay_containers node) (skipn (2 * n_db) cmds).
Proof.
  intros cmds n_db. subst cmds n_db. unfold enable_trim_on_compaction.
  set (dbc := flat_map _ (cn_db_containers node)).
  set (rc := map _ (cn_relay_containers node)).
  assert (Hlen : length dbc = (2 * length (cn_db_containers node))%nat).
  { subst dbc. apply flat_map_pairs_length. }
  split; [|split].
  - rewrite length_app, Hlen. subst rc. rewrite length_map. reflexivity.
  - rewrite <- Hlen, firstn_app, Nat.sub_diag, firstn_all. simpl.
    rewrite app_nil_r. subst dbc.
    apply List.Forall_forall. intros cmd Hin.
    apply List.in_flat_map in Hin. destruct Hin as (c & Hc & Hcmd).
    exists c. split; [exact Hc|].
    unfold correctly_spaced.
    destruct Hcmd as [<-|[<-|[]]]; apply prefix_append.
  - rewrite <- Hlen, skipn_app, Nat.sub_diag, skipn_all. simpl. subst rc.
    induction (cn_relay_containers node) as [|c l IH]; simpl;
      constructor; [|exact IH].
    unfold correctly_spaced.
    rewrite (append_assoc3 "docker exec " c).
    rewrite (prefix_append_same "docker exec ").
    rewrite prefix_append_same. reflexivity.
Qed.

(** ** How bulk additions compose *)

Lemma alter_absent {X} `{Countable X} (m : gmap string (gset X)) i f :
  m !! i = None -> alter f i m = m.
Proof.
  intros Hnone. apply map_eq. intros j. rewrite lookup_alter.
  case_decide; [subst j; rewrite Hnone; reflexivity | reflexivity].
Qed.

(** X8. Bulk port-group additions compose as unions: an empty list
    sends no transaction; adding [l1] and then [l2] leaves the
    membership of adding [l1 ++ l2] at once; adding the same ports again
    changes no membership; and a group that is not in the NB is not
    created by the addition. *)
Theorem port_group_add_ports_composes
        (pg : PortGroup) (l1 l2 : list LSPort) (db : NbDb) :
  port_group_add_ports pg [] db = db /\
  port_groups (port_group_add_ports pg l2 (port_group_add_ports pg l1 db))
  = port_groups (port_group_add_ports pg (l1 ++ l2) db) /\
  port_groups (port_group_add_ports pg l1 (port_group_add_ports pg l1 db))
  = port_groups (port_group_add_ports pg l1 db) /\
  (port_groups db !! pg_name pg = None ->
   port_groups (port_group_add_ports pg l1 db) = port_groups db).
Proof.
  split; [reflexivity|].
  repeat match goal with
         | |- context [port_groups (port_group_add_ports ?g ?l ?d)] =>
             rewrite (proj1 (port_group_add_ports_effect g l d))
         end.
  split; [|split].
  - rewrite alter_union_union, map_app, list_to_set_app_L. reflexivity.
  - rewrite alter_union_union. apply map_eq. intros j.
    rewrite !lookup_alter. case_decide; [|reflexivity].
    destruct (port_groups db !! pg_name pg); simpl; [|reflexivity].
    rewrite (idemp_L (∪)). reflexivity.
  - apply alter_absent.
Qed.

(** Adding to a group that was never created leaves the NB without it. *)
Lemma port_group_add_ports_composes_witness :
  let port := mkLSPort "lp-0-0" None NoAddr None NoAddr NoAddr NoAddr None
                       NoAddr NoAddr None false 7%N in
  port_groups (port_group_add_ports (mkPortGroup "pg_x") [port] empty_db)
  = port_groups empty_db.
Proof.
  intros port.
  apply (port_group_add_ports_composes (mkPortGroup "pg_x") [port] [] empty_db).
  reflexivity.
Defined.

(** ** Enforcing a namespace *)

(** The effect of the three additions made by [enforce] and by
    [add_ports] on an enforcing namespace. *)
Lemma three_groups_effect (ns : Namespace) (ports : list LSPort) (db : NbDb) :
  let db' :=
    port_group_add_ports (pg ns) ports
      (port_group_add_ports (pg_def_deny_egr ns) ports
         (port_group_add_ports (pg_def_deny_igr ns) ports db)) in
  address_sets db' = address_sets db /\
  forall name,
    port_groups db' !! name =
    if decide (In name [pg_name (pg_def_deny_igr ns);
                        pg_name (pg_def_deny_egr ns); pg_name (pg ns)])
    then extended (port_groups db) name (list_to_set (map lsp_uuid ports))
    else port_groups db !! name.
Proof.
  intros db'. subst db'.
  repeat match goal with
         | |- context [port_group_add_ports ?g ?l ?d] =>
             let H1 := fresh in let H2 := fresh in
             destruct (port_group_add_ports_effect g l d) as [H1 H2];
             rewrite ?H1, ?H2; clear H1 H2
         end.
  split; [reflexivity|]. intros name. rewrite alter3_lookup. simpl.
  repeat case_decide; try reflexivity; exfalso; intuition congruence.
Qed.

(** X9. [enforce] is idempotent: a second call changes neither the
    namespace nor the NB and sends no transaction.  The first call on a
    namespace that was not enforcing marks it enforcing, keeps its ports
    and address sets, and adds all its current ports to each of its
    three port groups and to no other group. *)
Theorem enforce_is_idempotent (ns : Namespace) (db : NbDb) :
  let ns1 := fst (enforce ns db) in
  let db1 := snd (enforce ns db) in
  enforce ns1 db1 = (ns1, db1) /\
  enforcing ns1 = true /\
  ns_ports ns1 = ns_ports ns /\
  address_sets db1 = address_sets db /\
  (enforcing ns = false ->
   forall name,
     port_groups db1 !! name =
     if decide (In name [pg_name (pg_def_deny_igr ns);
                         pg_name (pg_def_deny_egr ns); pg_name (pg ns)])
     then extended (port_groups db) name
                   (list_to_set (map lsp_uuid (ns_ports ns)))
     else port_groups db !! name).
Proof.
  intros ns1 db1. subst ns1 db1. unfold enforce.
  destruct (enforcing ns) eqn:E; cbn [fst snd].
  - rewrite E. repeat split; try reflexivity. discriminate.
  - cbn [enforcing ns_ports pg_def_deny_igr pg_def_deny_egr pg].
    destruct (three_groups_effect ns (ns_ports ns) db) as [Has Hpg].
    repeat split; try reflexivity; [exact Has|].
    intros _. exact Hpg.
Qed.

(** A namespace with one port, enforced on an NB that has its groups. *)
Lemma enforce_is_idempotent_witness :
  let port := mkLSPort "lp-0-0" None NoAddr None NoAddr NoAddr NoAddr None
                       NoAddr NoAddr None false 7%N in
  let created := create_namespace 0 "ns1" empty_db in
  let ns0 := fst (add_ports (fun _ => "") (fst (fst created)) [port] (snd created)) in
  let db0 := snd (add_ports (fun _ => "") (fst (fst created)) [port] (snd created)) in
  port_groups (snd (enforce ns0 db0)) !! "pg_deny_igr_ns1" = Some {[ 7%N ]} /\
  port_groups (snd (enforce ns0 db0)) !! "as_ns1" = None.
Proof.
  intros port created ns0 db0.
  pose proof (enforce_is_idempotent ns0 db0) as (_ & _ & _ & _ & Hpg).
  split.
  - rewrite (Hpg eq_refl "pg_deny_igr_ns1"). vm_compute. reflexivity.
  - rewrite (Hpg eq_refl "as_ns1"). vm_compute. reflexivity.
Defined.

(** X10. Adding ports and enforcing commute: whether the ports are
    added before the namespace is enforced or after, the namespace
    obtained is the same and so are the memberships of all port groups
    and address sets in the NB. *)
Theorem add_ports_enforce_commute
        (str_v6 : Z -> string) (ns : Namespace) (ports : list LSPort)
        (db : NbDb) :
  let added := add_ports str_v6 ns ports db in
  let enforced := enforce ns db in
  let a := enforce (fst added) (snd added) in
  let b := add_ports str_v6 (fst enforced) ports (snd enforced) in
  fst a = fst b /\
  port_groups (snd a) = port_groups (snd b) /\
  address_sets (snd a) = address_sets (snd b).
Proof.
  intros added enforced a b. subst added enforced a b.
  unfold add_ports, enforce.
  destruct (address_set_add_addrs_effect
              (fun x : string => x) (addr_set ns)
              (map (fun p => str_addr str_v6 (lsp_ip p)) ports) db)
    as [Has Hpg].
  destruct (enforcing ns) eqn:E;
    cbn [fst snd enforcing ns_ports pg_def_deny_igr pg_def_deny_egr pg
         addr_set sub_as sub_pg ns_name]; rewrite ?E;
    cbn [fst snd enforcing ns_ports pg_def_deny_igr pg_def_deny_egr pg
         addr_set sub_as sub_pg ns_name].
  - repeat split; reflexivity.
  - split; [reflexivity|].
    set (db1 := address_set_add_addrs _ (addr_set ns) _ db) in *.
    set (dbe := port_group_add_ports (pg ns) (ns_ports ns) _).
    destruct (three_groups_effect ns (ns_ports ns ++ ports) db1) as [HA1 HA2].
    destruct (three_groups_effect ns (ns_ports ns) db) as [HB1 HB2].
    fold dbe in HB1, HB2.
    destruct (address_set_add_addrs_effect
                (fun x : string => x) (addr_set ns)
                (map (fun p => str_addr str_v6 (lsp_ip p)) ports) dbe)
      as [Has' Hpg'].
    set (db2 := address_set_add_addrs _ (addr_set ns) _ dbe) in *.
    destruct (three_groups_effect ns ports db2) as [HC1 HC2].
    split.
    + apply map_eq. intros name. rewrite HA2, HC2, Hpg, Hpg'.
      unfold extended. rewrite HB2. unfold extended.
      case_decide; [|reflexivity].
      destruct (port_groups db !! name); simpl; [|reflexivity].
      rewrite map_app, list_to_set_app_L, (assoc_L (∪)). reflexivity.
    + rewrite HA1, HC1, Has, Has', HB1. reflexivity.
Qed.

(** ** Binding the ports provisioned *)

Section BindingFacts.
Variable rand_mac : nat -> string.
Variable db_uuid : nat -> UUID.



End BindingFacts.


(** ** Routes and NAT rules per family *)

(** X12. [route_add] and [nat_add] execute one command for each family
    present on both sides, with a non-zero address, and always pair a
    network with the address of its own family; when no family is
    present on both sides nothing is executed and nothing is raised. *)
Theorem route_and_nat_per_family
        (router : OvnNbctl.LRouter) (network : DualStackSubnet)
        (gw : DualStackIP) (policy nat_type : string) :
  let routes := OvnNbctl.route_add router network gw policy in
  let nats := OvnNbctl.nat_add router gw network nat_type in
  let both4 := OvnNbctl.obj_true (n4 network) && OvnNbctl.ip_true (ip4 gw) in
  let both6 := OvnNbctl.obj_true (n6 network) && OvnNbctl.ip_true (ip6 gw) in
  length routes = ((if both4 then 1 else 0) + (if both6 then 1 else 0))%nat /\
  length nats = length routes /\
  (forall cmd, In cmd routes ->
     exists net a,
       cmd = OvnNbctl.LrRouteAdd (OvnNbctl.lr_uuid router) net a policy /\
       ip_value a <> 0 /\
       ((n4 network = Some net /\ ip4 gw = Some a) \/
        (n6 network = Some net /\ ip6 gw = Some a))) /\
  (forall cmd, In cmd nats ->
     exists net a,
       cmd = OvnNbctl.LrNatAdd (OvnNbctl.lr_uuid router) nat_type a net /\
       ip_value a <> 0 /\
       ((n4 network = Some net /\ ip4 gw = Some a) \/
        (n6 network = Some net /\ ip6 gw = Some a))) /\
  ((n4 network = None \/ ip4 gw = None) ->
   (n6 network = None \/ ip6 gw = None) ->
   routes = [] /\ nats = []).
Proof.
  intros routes nats both4 both6. subst routes nats both4 both6.
  unfold OvnNbctl.route_add, OvnNbctl.nat_add, OvnNbctl.ip_true,
    OvnNbctl.obj_true.
  destruct (n4 network) as [net4|], (ip4 gw) as [a4|],
           (n6 network) as [net6|], (ip6 gw) as [a6|]; simpl;
    repeat match goal with
           | |- context [ip_value ?a =? 0] =>
               destruct (Z.eqb_spec (ip_value a) 0); simpl
           end;
    (split; [reflexivity|]); (split; [reflexivity|]);
    (split; [|split]);
    try (intros cmd Hin; simpl in Hin;
         repeat (destruct Hin as [<-|Hin]; [eauto 10|]); contradiction);
    intros [H4|H4] [H6|H6]; try discriminate; auto.
Qed.

(** A v4-only network with a v6-only gateway: no route, no NAT rule. *)
Lemma route_and_nat_per_family_witness :
  let network := mkDualStackSubnet (Some (mkNet V4 (16 * 2 ^ 24) 16)) None in
  let gw := mkDualStackIP None None (Some (mkIP V6 (2 ^ 112 + 1))) (Some 64) in
  let router := OvnNbctl.mkLRouter 1%N "lr-cluster" in
  OvnNbctl.route_add router network gw "dst-ip" = [] /\
  OvnNbctl.nat_add router gw network "snat" = [].
Proof.
  intros network gw router.
  apply (route_and_nat_per_family router network gw "dst-ip" "snat");
    [right | left]; reflexivity.
Defined.

(** ** Stepping the election timer *)

Lemma last_app_cons {A} (l : list A) a l' d :
  List.last (l ++ a :: l') d = List.last (a :: l') d.
Proof.
  induction l as [|x l IH]; [reflexivity|].
  change ((x :: l) ++ a :: l') with (x :: (l ++ a :: l')).
  destruct (l ++ a :: l') eqn:E; [destruct l; discriminate|].
  exact IH.
Qed.

Lemma range3_thousands t :
  range3 1000 ((t + 1) * 1000) 1000 =
  map (fun k => 1000 * Z.of_nat (S k)) (seq 0 (Z.to_nat t)).
Proof.
  unfold range3.
  replace (((t + 1) * 1000 - 1000 + 1000 - 1) / 1000) with t.
  - apply map_ext. intros k. lia.
  - apply (Z.div_unique _ 1000 t 999); lia.
Qed.

(** X13. [set_raft_election_timeout(t)] steps both timers from 1000 ms
    to [t * 1000] ms by 1000 ms, the NB timer before the SB timer at
    each step: [2 * t] commands in all, and none when [t] is zero or
    negative. *)
Theorem raft_election_timer_is_stepped (timeout_s : Z) :
  set_raft_election_timeout timeout_s =
  flat_map (fun k => change_election_timers (1000 * Z.of_nat (S k)))
           (seq 0 (Z.to_nat timeout_s)) /\
  length (set_raft_election_timeout timeout_s)
  = (2 * Z.to_nat timeout_s)%nat /\
  (0 < timeout_s ->
   List.last (set_raft_election_timeout timeout_s) ""
   = List.last (change_election_timers (timeout_s * 1000)) "").
Proof.
  unfold set_raft_election_timeout. rewrite range3_thousands.
  assert (Hflat : forall (l : list nat),
             flat_map change_election_timers
                      (map (fun k => 1000 * Z.of_nat (S k)) l) =
             flat_map (fun k => change_election_timers (1000 * Z.of_nat (S k))) l).
  { induction l as [|k l IH]; simpl; [reflexivity | rewrite IH; reflexivity]. }
  rewrite Hflat. split; [reflexivity|]. split.
  - unfold change_election_timers.
    rewrite (flat_map_pairs_length
               (fun k => "ovs-appctl -t " +:+ "/run/ovn/ovnnb_db.ctl " +:+
                         "cluster/change-election-timer " +:+
                         "OVN_Northbound " +:+ str_int (1000 * Z.of_nat (S k)))
               (fun k => "ovs-appctl -t " +:+ "/run/ovn/ovnsb_db.ctl " +:+
                         "cluster/change-election-timer " +:+
                         "OVN_Southbound " +:+ str_int (1000 * Z.of_nat (S k)))).
    rewrite length_seq. reflexivity.
  - intros Hpos.
    destruct (Z.to_nat timeout_s) as [|n] eqn:En; [lia|].
    rewrite seq_S, flat_map_app.
    change (flat_map (fun k => change_election_timers (1000 * Z.of_nat (S k)))
                     [(0 + n)%nat])
      with (change_election_timers (1000 * Z.of_nat (S (0 + n))) ++ []).
    rewrite app_nil_r. unfold change_election_timers at 2.
    rewrite last_app_cons.
    replace (1000 * Z.of_nat (S (0 + n))) with (timeout_s * 1000) by lia.
    reflexivity.
Qed.

Lemma raft_election_timer_is_stepped_witness :
  List.last (set_raft_election_timeout 16) ""
  = "ovs-appctl -t /run/ovn/ovnsb_db.ctl cluster/change-election-timer OVN_Southbound 16000".
Proof.
  destruct (raft_election_timer_is_stepped 16) as (_ & _ & Hlast).
  rewrite Hlast by lia. reflexivity.
Defined.

(** ** Waiting for a chassis *)

Lemma wait_loop_found n sb chassis p k :
  (k < n)%nat ->
  chassis_bound (sb (p + k)%nat) chassis = true ->
  (forall j, (j < k)%nat -> chassis_bound (sb (p + j)%nat) chassis = false) ->
  wait_loop n sb chassis p = (Done tt, S (p + k)).
Proof.
  revert p k. induction n as [|n IH]; intros p k Hk Hb Hnot; [lia|].
  cbn [wait_loop]. destruct k as [|k].
  - rewrite Nat.add_0_r in *. rewrite Hb. reflexivity.
  - pose proof (Hnot 0%nat ltac:(lia)) as H0.
    rewrite Nat.add_0_r in H0. rewrite H0.
    rewrite (IH (S p) k).
    + f_equal. f_equal. lia.
    + lia.
    + replace (S p + k)%nat with (p + S k)%nat by lia. exact Hb.
    + intros j Hj. replace (S p + j)%nat with (p + S j)%nat by lia.
      apply Hnot. lia.
Qed.

Lemma wait_loop_timeout n sb chassis p :
  (forall j, (j < n)%nat -> chassis_bound (sb (p + j)%nat) chassis = false) ->
  wait_loop n sb chassis p = (Err OvnChassisTimeoutException, (p + n)%nat).
Proof.
  revert p. induction n as [|n IH]; intros p Hnot; cbn [wait_loop].
  - rewrite Nat.add_0_r. reflexivity.
  - pose proof (Hnot 0%nat ltac:(lia)) as H0.
    rewrite Nat.add_0_r in H0. rewrite H0.
    rewrite IH.
    + f_equal. lia.
    + intros j Hj. replace (S p + j)%nat with (p + S j)%nat by lia.
      apply Hnot. lia.
Qed.

(** X14. [WorkerNode.wait] polls the SB at most [timeout_s * 10] times.
    It returns at the first poll that finds exactly one chassis of the
    container's name, having made that many polls and no more; when no
    poll within the budget finds it, it raises
    [OvnChassisTimeoutException] after exactly [timeout_s * 10] polls;
    with a zero or negative timeout it raises without polling at all,
    even if the chassis is bound. *)
Theorem wait_polls_until_bound_or_deadline
        (self : WorkerNode) (sb : nat -> list string) (timeout_s : Z) :
  let budget := Z.to_nat (timeout_s * 10) in
  (forall k, (k < budget)%nat ->
             chassis_bound (sb k) (container self) = true ->
             (forall j, (j < k)%nat ->
                        chassis_bound (sb j) (container self) = false) ->
             wait self sb timeout_s = (Done tt, S k)) /\
  ((forall j, (j < budget)%nat ->
              chassis_bound (sb j) (container self) = false) ->
   wait self sb timeout_s = (Err OvnChassisTimeoutException, budget)) /\
  (timeout_s <= 0 ->
   wait self sb timeout_s = (Err OvnChassisTimeoutException, 0%nat)).
Proof.
  intros budget. unfold wait. fold budget. split; [|split].
  - intros k Hk Hb Hnot.
    apply (wait_loop_found budget sb (container self) 0 k); assumption.
  - intros Hnot.
    apply (wait_loop_timeout budget sb (container self) 0). exact Hnot.
  - intros Hle. replace budget with 0%nat by (subst budget; lia).
    reflexivity.
Qed.

(** A chassis that registers at the third poll, with a budget of ten. *)
Lemma wait_polls_until_bound_or_deadline_witness :
  let w := WorkerNode_init "ovn-scale-1" (mkNet V4 (16 * 2 ^ 24) 16)
                           (mkNet V4 (3 * 2 ^ 24) 16)
                           (mkNet V4 (2 * 2 ^ 24) 16) 1 in
  let sb := fun k => if (k <? 2)%nat then ["ovn-scale-0"]
                     else ["ovn-scale-0"; "ovn-scale-1"] in
  wait w sb 1 = (Done tt, 3%nat).
Proof.
  intros w sb.
  apply (wait_polls_until_bound_or_deadline w sb 1).
  - simpl. lia.
  - reflexivity.
  - intros j Hj.
    destruct j as [|[|j]]; [reflexivity | reflexivity | lia].
Defined.

(** ** Round-robin selection of workers *)

Lemma mod_same_window W a b :
  0 < W -> 0 <= a < W -> 0 <= b < W -> forall l,
  (l + a) mod W = (l + b) mod W -> a = b.
Proof.
  intros HW Ha Hb l Heq.
  pose proof (Z.div_mod (l + a) W ltac:(lia)) as Da.
  pose proof (Z.div_mod (l + b) W ltac:(lia)) as Db.
  rewrite Heq in Da.
  assert (Hq : a - b = W * ((l + a) / W - (l + b) / W)) by lia.
  set (q := (l + a) / W - (l + b) / W) in Hq.
  assert (q = 0) by nia. nia.
Qed.

Lemma select_worker_for_port_ok c :
  worker_nodes c <> [] ->
  let W := Z.of_nat (length (worker_nodes c)) in
  let i := (last_selected_worker c + 1) mod W in
  exists w, worker_nodes c !! Z.to_nat i = Some w /\
            select_worker_for_port c
            = Done (w, mkCluster (worker_nodes c) i (nb_created c)).
Proof.
  intros Hne W i. unfold select_worker_for_port. fold W.
  assert (HW : 0 < W).
  { subst W. destruct (worker_nodes c); [contradiction | simpl; lia]. }
  destruct (Z.eqb_spec W 0) as [E|_]; [lia|]. fold i.
  assert (Hi : 0 <= i < W) by (apply Z.mod_pos_bound; exact HW).
  destruct (worker_nodes c !! Z.to_nat i) as [w|] eqn:El.
  - exists w. auto.
  - apply lookup_ge_None in El. subst W. lia.
Qed.

Lemma select_many_spec k c :
  worker_nodes c <> [] ->
  let W := Z.of_nat (length (worker_nodes c)) in
  exists c',
    select_many k c
    = Done (map (fun j => (last_selected_worker c + 1 + Z.of_nat j) mod W)
                (seq 0 k), c') /\
    worker_nodes c' = worker_nodes c /\
    nb_created c' = nb_created c /\
    (k = 0%nat -> c' = c) /\
    ((0 < k)%nat ->
     last_selected_worker c' = (last_selected_worker c + Z.of_nat k) mod W).
Proof.
  revert c. induction k as [|k IH]; intros c Hne W.
  - exists c. simpl. repeat split; auto. lia.
  - cbn [select_many].
    destruct (select_worker_for_port_ok c Hne) as (w & _ & ->).
    fold W.
    set (c1 := mkCluster (worker_nodes c)
                         ((last_selected_worker c + 1) mod W) (nb_created c)).
    destruct (IH c1 Hne) as (c' & -> & Hw & Hn & Hzero & Hlast).
    exists c'. cbn [worker_nodes last_selected_worker c1] in *. fold W.
    assert (HW : 0 < W).
    { subst W. destruct (worker_nodes c); [contradiction | simpl; lia]. }
    split; [|split; [exact Hw|split; [exact Hn|split; [discriminate|]]]].
    + f_equal. f_equal.
      cbn [seq map]. f_equal.
      * f_equal. lia.
      * rewrite <- seq_shift, map_map. apply map_ext. intros j.
        rewrite <- Z.add_assoc, Zplus_mod_idemp_l.
        f_equal. lia.
    + intros _. destruct k as [|k].
      * rewrite (Hzero eq_refl). simpl. f_equal.
      * rewrite Hlast by lia.
        rewrite Zplus_mod_idemp_l. f_equal. lia.
Qed.

(** X15. [select_worker_for_port] is a round robin: with [W] workers and
    the counter at [l], [k] successive calls pick the workers at the
    indexes [(l + 1) mod W], [(l + 2) mod W], ..., leave the list of
    workers alone, and never index out of range; any [W] successive
    calls pick every worker exactly once.  With no worker at all the
    call fails on the division. *)
Theorem select_worker_is_round_robin (c : Cluster) (k : nat) :
  let W := Z.of_nat (length (worker_nodes c)) in
  let l := last_selected_worker c in
  (worker_nodes c = [] -> select_worker_for_port c = Err ZeroDivisionError) /\
  select_worker_for_port c <> Err IndexError /\
  (worker_nodes c <> [] ->
   (exists c',
      select_many k c
      = Done (map (fun j => (l + 1 + Z.of_nat j) mod W) (seq 0 k), c') /\
      worker_nodes c' = worker_nodes c) /\
   (forall i, 0 <= i < W ->
      exists j, (j < length (worker_nodes c))%nat /\
                (l + 1 + Z.of_nat j) mod W = i /\
                forall j', (j' < length (worker_nodes c))%nat ->
                           (l + 1 + Z.of_nat j') mod W = i -> j' = j)).
Proof.
  intros W l. split; [|split].
  - intros E. unfold select_worker_for_port. rewrite E. reflexivity.
  - destruct (worker_nodes c) as [|w0 ws] eqn:E.
    + unfold select_worker_for_port. rewrite E. discriminate.
    + destruct (select_worker_for_port_ok c) as (w & _ & ->);
        [rewrite E; discriminate | discriminate].
  - intros Hne. split.
    + destruct (select_many_spec k c Hne) as (c' & Hsel & Hw & _).
      exists c'. auto.
    + assert (HW : 0 < W).
      { subst W. destruct (worker_nodes c); [contradiction | simpl; lia]. }
      intros i Hi.
      exists (Z.to_nat ((i - l - 1) mod W)).
      pose proof (Z.mod_pos_bound (i - l - 1) W HW) as Hb.
      split; [subst W; lia|]. split.
      * rewrite Z2Nat.id by lia.
        rewrite Zplus_mod_idemp_r.
        replace (l + 1 + (i - l - 1)) with i by lia.
        apply Z.mod_small. exact Hi.
      * intros j' Hj' Hsel.
        assert (Hz : Z.of_nat j' = (i - l - 1) mod W).
        { apply (mod_same_window W _ _ HW) with (l := l + 1);
            [subst W; lia | lia |].
          rewrite Hsel. rewrite Zplus_mod_idemp_r.
          replace (l + 1 + (i - l - 1)) with i by lia.
          symmetry. apply Z.mod_small. exact Hi. }
        lia.
Qed.

(** Three workers, the counter at its initial value 0: four calls pick
    1, 2, 0 and 1 again. *)
Lemma select_worker_is_round_robin_witness :
  let w := fun n => WorkerNode_init "ovn-scale" (mkNet V4 (16 * 2 ^ 24) 16)
                                    (mkNet V4 (3 * 2 ^ 24) 16)
                                    (mkNet V4 (2 * 2 ^ 24) 16) n in
  let c := mkCluster [w 0; w 1; w 2] 0 0 in
  exists c', select_many 4 c = Done ([1; 2; 0; 1], c').
Proof.
  intros w c.
  destruct (select_worker_is_round_robin c 4) as (_ & _ & H).
  destruct (H ltac:(discriminate)) as ((c' & Hsel & _) & _).
  exists c'. exact Hsel.
Defined.

(** ** Provisioning ports across the cluster *)

Section ClusterFacts.
Variable rand_mac : nat -> string.
Variable db_uuid : nat -> UUID.

Lemma provisionable_fewer w n m :
  0 <= m <= n -> provisionable w n -> provisionable w m.
Proof. unfold provisionable. lia. Qed.

Lemma provision_one w created passive :
  provisionable w 1 ->
  exists p w',
    provision_ports rand_mac db_uuid w created 1 passive
    = Ok ([p], w', S created) /\
    lsp_metadata p = Some (id w) /\
    lsp_passive p = passive /\
    id w' = id w /\
    (forall n, 0 <= n -> provisionable w (n + 1) -> provisionable w' n).
Proof.
  intros (H1 & H2 & H3 & H4).
  unfold provision_ports.
  change (Z.to_nat 1) with 1%nat. cbn [provision_port_list].
  unfold provision_port.
  destruct (IPAddress_of_int_total
              (first (int_net w) + next_lport_index w + 1)) as [ip ->];
    [lia|].
  destruct (IPAddress_of_int_total (last (int_net w) - 1)) as [gw ->];
    [lia|].
  destruct (IPAddress_of_int_total (last (ext_net w) - 2)) as [ext_gw ->];
    [lia|].
  cbn [bind fold_left]. eexists _, _. split; [reflexivity|].
  cbn. repeat split; auto; unfold provisionable in *; cbn; lia.
Qed.

Lemma cluster_provision_loop_spec n c passive acc :
  worker_nodes c <> [] ->
  Forall (fun w => provisionable w (Z.of_nat n)) (worker_nodes c) ->
  let W := Z.of_nat (length (worker_nodes c)) in
  exists new c',
    cluster_provision_loop rand_mac db_uuid n c passive acc
    = Done (acc ++ new, c') /\
    length new = n /\
    id <$> worker_nodes c' = id <$> worker_nodes c /\
    nb_created c' = (nb_created c + n)%nat /\
    (forall k p, new !! k = Some p ->
       lsp_passive p = passive /\
       lsp_metadata p
       = (id <$> worker_nodes c)
           !! Z.to_nat ((last_selected_worker c + 1 + Z.of_nat k) mod W)).
Proof.
  revert c acc. induction n as [|n IH]; intros c acc Hne Hall W.
  - exists [], c. cbn. rewrite app_nil_r.
    split; [reflexivity|]. split; [reflexivity|]. split; [reflexivity|].
    split; [lia|]. intros k p [=].
  - cbn [cluster_provision_loop].
    destruct (select_worker_for_port_ok c Hne) as (w & Hw & ->).
    fold W in Hw. cbn [last_selected_worker worker_nodes nb_created].
    set (i := (last_selected_worker c + 1) mod W) in *.
    assert (Hprov : provisionable w (Z.of_nat (S n))).
    { eapply Forall_lookup_1 in Hall; [exact Hall | exact Hw]. }
    destruct (provision_one w (nb_created c) passive)
      as (p & w' & -> & Hmeta & Hpas & Hid & Hnext).
    { apply (provisionable_fewer w (Z.of_nat (S n))); [lia | exact Hprov]. }
    cbn [last_selected_worker worker_nodes nb_created].
    set (c2 := mkCluster (<[Z.to_nat i := w']> (worker_nodes c)) i
                         (S (nb_created c))).
    assert (Hlen2 : length (worker_nodes c2) = length (worker_nodes c)).
    { subst c2. cbn. apply length_insert. }
    assert (Hids : id <$> worker_nodes c2 = id <$> worker_nodes c).
    { subst c2. cbn. rewrite list_fmap_insert, Hid.
      apply list_insert_id. rewrite list_lookup_fmap, Hw. reflexivity. }
    destruct (IH c2 (acc ++ [p]))
      as (new & c' & Eloop & Hlen & Hids' & Hn & Hk).
    { intros E. apply (f_equal (@length _)) in E. rewrite Hlen2 in E.
      destruct (worker_nodes c); [contradiction | discriminate]. }
    { subst c2. cbn. apply Forall_insert.
      - eapply Forall_impl; [exact Hall|]. cbn. intros x Hx.
        apply (provisionable_fewer x (Z.of_nat (S n))); [lia | exact Hx].
      - apply Hnext; [lia|].
        replace (Z.of_nat n + 1) with (Z.of_nat (S n)) by lia. exact Hprov. }
    exists (p :: new), c'.
    split.
    { change (cluster_provision_loop rand_mac db_uuid n c2 passive (acc ++ [p])
              = Done (acc ++ p :: new, c')).
      rewrite Eloop, <- app_assoc. reflexivity. }
    split; [cbn; rewrite Hlen; reflexivity|].
    split; [rewrite Hids', Hids; reflexivity|].
    split; [rewrite Hn; subst c2; cbn; lia|].
    assert (HW : 0 < W).
    { subst W. destruct (worker_nodes c); [contradiction | cbn; lia]. }
    intros [|k] q Hq; cbn in Hq.
    + injection Hq as <-. split; [exact Hpas|].
      rewrite Hmeta, list_lookup_fmap.
      replace (last_selected_worker c + 1 + Z.of_nat 0)
        with (last_selected_worker c + 1) by lia.
      fold i. rewrite Hw. reflexivity.
    + destruct (Hk k q Hq) as (Hp & Hm). split; [exact Hp|].
      rewrite Hm, Hids, Hlen2. fold W.
      subst c2. cbn [last_selected_worker]. subst i.
      f_equal. f_equal.
      rewrite <- Z.add_assoc, Zplus_mod_idemp_l. f_equal. lia.
Qed.
End ClusterFacts.

(** X16. [Cluster.provision_ports(n)] hands the ports out in round-robin
    order: when every worker can take [n] more ports, it returns [n]
    ports, the [k]-th of which refers to the worker at the index
    [(last_selected_worker + 1 + k) mod W] and carries the [passive]
    flag asked for; the workers stay the same ones in the same order,
    and the NB client has created exactly [n] ports. *)
Theorem cluster_provision_ports_round_robin
        (rand_mac : nat -> string) (db_uuid : nat -> UUID)
        (c : Cluster) (n_ports : Z) (passive : bool) :
  worker_nodes c <> [] ->
  0 <= n_ports ->
  Forall (fun w => provisionable w n_ports) (worker_nodes c) ->
  let W := Z.of_nat (length (worker_nodes c)) in
  exists ports c',
    cluster_provision_ports rand_mac db_uuid c n_ports passive
    = Done (ports, c') /\
    Z.of_nat (length ports) = n_ports /\
    id <$> worker_nodes c' = id <$> worker_nodes c /\
    nb_created c' = (nb_created c + Z.to_nat n_ports)%nat /\
    (forall k p, ports !! k = Some p ->
       lsp_passive p = passive /\
       lsp_metadata p
       = (id <$> worker_nodes c)
           !! Z.to_nat ((last_selected_worker c + 1 + Z.of_nat k) mod W)).
Proof.
  intros Hne Hn Hall W. unfold cluster_provision_ports.
  destruct (cluster_provision_loop_spec rand_mac db_uuid (Z.to_nat n_ports)
                                        c passive [] Hne)
    as (new & c' & E & Hlen & Hids & Hcr & Hk).
  { rewrite Z2Nat.id by exact Hn. exact Hall. }
  exists new, c'. rewrite E. cbn [app].
  split; [reflexivity|]. split; [lia|]. auto.
Qed.

(** Two new workers, 7 and 9, the counter at its initial value 0: of
    three ports the first and the third refer to the worker 9, the
    second to the worker 7. *)
Lemma cluster_provision_ports_round_robin_witness :
  let w := fun n => WorkerNode_init "ovn-scale" (mkNet V4 (16 * 2 ^ 24) 16)
                                    (mkNet V4 (3 * 2 ^ 24) 16)
                                    (mkNet V4 (2 * 2 ^ 24) 16) n in
  let c := mkCluster [w 7; w 9] 0 0 in
  exists ports c',
    cluster_provision_ports (fun _ => "02:00:00:00:00:01") N.of_nat c 3 false
    = Done (ports, c') /\
    forall p, ports !! 2%nat = Some p -> lsp_metadata p = Some 9.
Proof.
  intros w c.
  destruct (cluster_provision_ports_round_robin
              (fun _ => "02:00:00:00:00:01") N.of_nat c 3 false)
    as (ports & c' & E & _ & _ & _ & Hk).
  - discriminate.
  - lia.
  - apply Forall_cons_2; [|apply Forall_cons_2; [|apply Forall_nil_2]];
      vm_compute; repeat split; discriminate.
  - exists ports, c'. split; [exact E|].
    intros p Hp. destruct (Hk 2%nat p Hp) as (_ & ->). reflexivity.
Defined.

(** ** Unprovisioning a port *)

Lemma list_remove_absent {A} `{EqDecision A} (x : A) (l : list A) :
  ~ In x l -> list_remove x l = None.
Proof.
  induction l as [|y l IH]; intros Hnot; cbn; [reflexivity|].
  destruct (decide (y = x)) as [->|_].
  - exfalso. apply Hnot. left. reflexivity.
  - rewrite IH; [reflexivity|]. intros Hin. apply Hnot. right. exact Hin.
Qed.

Lemma list_remove_present {A} `{EqDecision A} (x : A) (l : list A) :
  In x l ->
  exists rest, list_remove x l = Some rest /\ Permutation l (x :: rest).
Proof.
  induction l as [|y l IH]; intros Hin; [destruct Hin|]. cbn.
  destruct (decide (y = x)) as [->|Hne].
  - exists l. split; reflexivity.
  - destruct Hin as [E|Hin]; [contradiction|].
    destruct (IH Hin) as (rest & -> & Hperm).
    exists (y :: rest). split; [reflexivity|].
    rewrite Hperm. apply perm_swap.
Qed.

Lemma list_remove_last_added {A} `{EqDecision A} (x : A) (l : list A) :
  ~ In x l -> list_remove x (l ++ [x]) = Some l.
Proof.
  induction l as [|y l IH]; intros Hnot; cbn.
  - destruct (decide (x = x)); [reflexivity | contradiction].
  - destruct (decide (y = x)) as [->|_].
    + exfalso. apply Hnot. left. reflexivity.
    + rewrite IH; [reflexivity|]. intros Hin. apply Hnot. right. exact Hin.
Qed.

(** X17. [unprovision_port] deletes the port from the NB and unbinds it
    before it looks at the worker's own list: for a port the worker
    does not hold it raises [ValueError] with both already done.  For a
    port it holds it takes one occurrence out of [lports] and leaves
    [next_lport_index] alone; so unprovisioning the port just
    provisioned gives back the old list of ports but not the old index,
    and the sequence number of the port is never used again. *)
Theorem unprovision_port_keeps_the_index
        (rand_mac : nat -> string) (db_uuid : nat -> UUID)
        (w : WorkerNode) (port : LSPort) :
  fst (unprovision_port w port) = (lsp_name port, unbind_port port) /\
  (~ In port (lports w) -> snd (unprovision_port w port) = Err ValueError) /\
  (In port (lports w) ->
   exists w', snd (unprovision_port w port) = Done w' /\
              Permutation (lports w) (port :: lports w') /\
              next_lport_index w' = next_lport_index w /\
              vsctl_log w' = vsctl_log w) /\
  (forall created passive p w1 created1,
     provision_port rand_mac db_uuid w created passive = Ok (p, w1, created1) ->
     ~ In p (lports w) ->
     exists w2, snd (unprovision_port w1 p) = Done w2 /\
                lports w2 = lports w /\
                next_lport_index w2 = next_lport_index w + 1).
Proof.
  split; [|split; [|split]].
  - unfold unprovision_port.
    destruct (list_remove port (lports w)); reflexivity.
  - intros Hnot. unfold unprovision_port.
    rewrite (list_remove_absent _ _ Hnot). reflexivity.
  - intros Hin. unfold unprovision_port.
    destruct (list_remove_present _ _ Hin) as (rest & -> & Hperm).
    eexists. split; [reflexivity|]. cbn. auto.
  - intros created passive p w1 created1 Hprov Hnot.
    apply provision_port_spec in Hprov.
    destruct Hprov as (_ & Hidx & Hl & _).
    unfold unprovision_port. rewrite Hl.
    rewrite (list_remove_last_added _ _ Hnot).
    eexists. split; [reflexivity|]. cbn. auto.
Qed.

(** A new worker provisions its first port and unprovisions it: no port
    is left, and the next port will be the one of sequence number 1. *)
Lemma unprovision_port_keeps_the_index_witness :
  let w := WorkerNode_init "ovn-scale-3" (mkNet V4 (16 * 2 ^ 24) 16)
                           (mkNet V4 (3 * 2 ^ 24) 16)
                           (mkNet V4 (2 * 2 ^ 24) 16) 3 in
  exists p w1 created1 w2,
    provision_port (fun _ => "02:00:00:00:00:01") N.of_nat w 0 false
    = Ok (p, w1, created1) /\
    snd (unprovision_port w1 p) = Done w2 /\
    lports w2 = [] /\ next_lport_index w2 = 1.
Proof.
  intros w.
  destruct (provision_port_total (fun _ => "02:00:00:00:00:01") N.of_nat
                                 w 0 false) as (p & w1 & E).
  { vm_compute. repeat split; discriminate. }
  destruct (unprovision_port_keeps_the_index
              (fun _ => "02:00:00:00:00:01") N.of_nat w p)
    as (_ & _ & _ & H).
  destruct (H 0%nat false p w1 1%nat E) as (w2 & E2 & Hl & Hi).
  { intros []. }
  exists p, w1, 1%nat, w2. auto.
Defined.

(** ** Grouping ports by worker *)

Lemma dict_get_append k p d k' :
  dict_get k' (dict_append k p d) =
  if decide (k' = k) then Some (default [] (dict_get k d) ++ [p])
  else dict_get k' d.
Proof.
  induction d as [|[k0 ps] d IH]; cbn.
  - destruct (decide (k = k')) as [->|Hne].
    + rewrite decide_True by reflexivity. reflexivity.
    + rewrite decide_False by congruence. reflexivity.
  - destruct (decide (k0 = k)) as [->|Hne]; cbn.
    + destruct (decide (k = k')) as [->|Hne'].
      * rewrite decide_True by reflexivity. reflexivity.
      * rewrite decide_False by congruence. reflexivity.
    + destruct (decide (k0 = k')) as [->|Hne'].
      * rewrite decide_False by congruence. reflexivity.
      * exact IH.
Qed.

Lemma dict_append_keys k p d x :
  In x (map fst (dict_append k p d)) -> x = k \/ In x (map fst d).
Proof.
  induction d as [|[k0 ps] d IH]; cbn.
  - intros [<-|[]]. left. reflexivity.
  - destruct (decide (k0 = k)) as [->|Hne]; cbn.
    + intros [<-|Hin]; auto.
    + intros [<-|Hin]; [auto|]. destruct (IH Hin); auto.
Qed.

Lemma dict_append_NoDup k p d :
  List.NoDup (map fst d) -> List.NoDup (map fst (dict_append k p d)).
Proof.
  induction d as [|[k0 ps] d IH]; cbn; intros Hd.
  - constructor; [intros [] | constructor].
  - inversion Hd as [|? ? Hnotin Hd']; subst.
    destruct (decide (k0 = k)) as [->|Hne]; cbn.
    + constructor; assumption.
    + constructor; [|apply IH; exact Hd'].
      intros Hin. apply dict_append_keys in Hin.
      destruct Hin as [->|Hin]; [congruence | contradiction].
Qed.

Lemma dict_append_concat k p d :
  Permutation (concat (map snd (dict_append k p d)))
              (p :: concat (map snd d)).
Proof.
  induction d as [|[k0 ps] d IH]; cbn.
  - reflexivity.
  - destruct (decide (k0 = k)) as [->|Hne]; cbn.
    + rewrite <- app_assoc. symmetry. apply Permutation_middle.
    + rewrite IH. symmetry. apply Permutation_middle.
Qed.

Lemma default_entry_of ps : default [] (entry_of ps) = ps.
Proof. destruct ps; reflexivity. Qed.

Lemma ports_per_worker_fold ports d seen :
  List.NoDup (map fst d) ->
  (forall k, dict_get k d
             = entry_of (filter (fun p => lsp_metadata p = k) seen)) ->
  Permutation (concat (map snd d)) seen ->
  let d' := fold_left (fun d p => dict_append (lsp_metadata p) p d) ports d in
  List.NoDup (map fst d') /\
  (forall k, dict_get k d'
             = entry_of (filter (fun p => lsp_metadata p = k) (seen ++ ports))) /\
  Permutation (concat (map snd d')) (seen ++ ports).
Proof.
  revert d seen. induction ports as [|p ports IH]; intros d seen Hnd Hget Hperm.
  - cbn. rewrite app_nil_r. auto.
  - cbn [fold_left].
    replace (seen ++ p :: ports) with ((seen ++ [p]) ++ ports)
      by (rewrite <- app_assoc; reflexivity).
    apply IH.
    + apply dict_append_NoDup. exact Hnd.
    + intros k. rewrite dict_get_append, filter_app, Hget, default_entry_of.
      rewrite filter_cons, filter_nil.
      destruct (decide (k = lsp_metadata p)) as [->|Hne].
      * rewrite decide_True by reflexivity.
        destruct (filter _ seen); reflexivity.
      * rewrite decide_False by congruence. rewrite app_nil_r. apply Hget.
    + rewrite dict_append_concat, Hperm.
      change (p :: seen) with ([p] ++ seen). apply Permutation_app_comm.
Qed.

(** X18. The dictionary that [Cluster.ping_ports] builds has one entry
    for each worker that some port refers to and no other; the entry of
    a worker holds exactly the ports that refer to it, in the order of
    the input; so every port is pinged once, by its own worker. *)
Theorem ping_ports_groups_by_worker (ports : list LSPort) :
  let d := ports_per_worker ports in
  List.NoDup (map fst d) /\
  (forall k, dict_get k d
             = entry_of (filter (fun p => lsp_metadata p = k) ports)) /\
  Permutation (concat (map snd d)) ports.
Proof.
  apply (ports_per_worker_fold ports [] []).
  - constructor.
  - intros k. reflexivity.
  - reflexivity.
Qed.

(** ** Sub-namespaces *)

(** X19. [create_sub_ns] returns the number of sub-groups the namespace
    had, and names the new port group and address set after it.  In
    the NB the group of that name holds afterwards what it held before,
    if it existed, and the ports given; the set of that name likewise
    with their addresses; no other group or set changes.  The
    namespace's own ports and its enforcing flag are untouched, and
    when [sub_pg] and [sub_as] had the same length the index returned
    is the position of the new entry in both. *)
Theorem create_sub_ns_appends_at_index
        (str_v6 : Z -> string) (ns : Namespace) (ports : list LSPort)
        (db : NbDb) :
  let r := create_sub_ns str_v6 ns ports db in
  let idx := fst (fst r) in
  let ns' := snd (fst r) in
  let db' := snd r in
  let suffix := ns_name ns +:+ "_" +:+ str_int (Z.of_nat (length (sub_pg ns))) in
  idx = length (sub_pg ns) /\
  sub_pg ns' !! idx = Some (mkPortGroup ("sub_pg_" +:+ suffix)) /\
  length (sub_pg ns') = S idx /\
  (length (sub_as ns) = length (sub_pg ns) ->
   sub_as ns' !! idx = Some (mkAddressSet ("sub_as_" +:+ suffix)) /\
   length (sub_as ns') = length (sub_pg ns')) /\
  ns_ports ns' = ns_ports ns /\ enforcing ns' = enforcing ns /\
  (forall name,
     port_groups db' !! name =
     if decide (name = "sub_pg_" +:+ suffix)
     then Some (default ∅ (port_groups db !! name)
                ∪ list_to_set (map lsp_uuid ports))
     else port_groups db !! name) /\
  (forall name,
     address_sets db' !! name =
     if decide (name = "sub_as_" +:+ suffix)
     then Some (default ∅ (address_sets db !! name)
                ∪ list_to_set (map (fun p => str_addr str_v6 (lsp_ip p)) ports))
     else address_sets db !! name).
Proof.
  intros r idx ns' db' suffix. subst r idx ns' db'.
  unfold create_sub_ns, port_group_create, address_set_create.
  fold suffix. cbn [fst snd sub_pg sub_as ns_ports enforcing].
  split; [reflexivity|].
  split; [apply list_lookup_middle; reflexivity|].
  split; [rewrite length_app; cbn; lia|].
  split.
  { intros Hlen. split.
    - apply list_lookup_middle. symmetry. exact Hlen.
    - rewrite !length_app, Hlen. reflexivity. }
  split; [reflexivity|]. split; [reflexivity|].
  set (pgn := "sub_pg_" +:+ suffix). set (asn := "sub_as_" +:+ suffix).
  set (db1 := execute_txn (PgAdd pgn) db).
  set (db2 := port_group_add_ports (mkPortGroup pgn) ports db1).
  set (db3 := execute_txn (AddressSetAdd asn) db2).
  set (addrs := map (fun p => str_addr str_v6 (lsp_ip p)) ports).
  destruct (address_set_add_addrs_effect (fun a : string => a)
              (mkAddressSet asn) addrs db3) as [Ea4 Ep4].
  destruct (port_group_add_ports_effect (mkPortGroup pgn) ports db1)
    as [Ep2 Ea2].
  fold db2 in Ep2, Ea2. cbn [pg_name as_name] in Ep2, Ea4.
  rewrite List.map_id in Ea4.
  assert (Ep3 : port_groups db3 = port_groups db2) by reflexivity.
  assert (Ea3 : address_sets db3
                = match address_sets db2 !! asn with
                  | Some _ => address_sets db2
                  | None => <[asn := ∅]> (address_sets db2)
                  end) by reflexivity.
  assert (Ep1 : port_groups db1
                = match port_groups db !! pgn with
                  | Some _ => port_groups db
                  | None => <[pgn := ∅]> (port_groups db)
                  end) by reflexivity.
  assert (Ea1 : address_sets db1 = address_sets db) by reflexivity.
  split.
  - intros name. rewrite Ep4, Ep3, Ep2, Ep1, lookup_alter.
    destruct (decide (name = pgn)) as [->|Hne].
    + rewrite decide_True by reflexivity.
      destruct (port_groups db !! pgn) as [s|] eqn:E.
      * rewrite E. reflexivity.
      * rewrite lookup_insert_eq. reflexivity.
    + rewrite decide_False by congruence.
      destruct (port_groups db !! pgn) as [s|] eqn:E.
      * reflexivity.
      * rewrite lookup_insert_ne by congruence. reflexivity.
  - intros name. rewrite Ea4, Ea3, Ea2, Ea1, lookup_alter.
    destruct (decide (name = asn)) as [->|Hne].
    + rewrite decide_True by reflexivity.
      destruct (address_sets db !! asn) as [s|] eqn:E.
      * rewrite E. reflexivity.
      * rewrite lookup_insert_eq. reflexivity.
    + rewrite decide_False by congruence.
      destruct (address_sets db !! asn) as [s|] eqn:E.
      * reflexivity.
      * rewrite lookup_insert_ne by congruence. reflexivity.
Qed.

(** A namespace just created has no sub-group: the first one gets the
    index 0 in both lists. *)
Lemma create_sub_ns_appends_at_index_witness :
  let ns := fst (fst (create_namespace 0 "ns1" empty_db)) in
  let db := snd (create_namespace 0 "ns1" empty_db) in
  let r := create_sub_ns (fun _ => "") ns [] db in
  sub_as (snd (fst r)) !! 0%nat = Some (mkAddressSet "sub_as_ns1_0") /\
  sub_pg (snd (fst r)) !! 0%nat = Some (mkPortGroup "sub_pg_ns1_0").
Proof.
  intros ns db r.
  destruct (create_sub_ns_appends_at_index (fun _ => "") ns [] db)
    as (_ & Hpg & _ & H & _).
  destruct (H eq_refl) as [Has _].
  split; [exact Has | exact Hpg].
Defined.

(** ** Adding a switch port *)

Section SwitchPortFacts.
Variable str_v6 : Z -> string.
Variable World : Type.
Variable execute : OvnNbctl.NbCmd -> World -> World * option UUID.

Lemma In_repeat {A} (x y : A) n : In y (repeat x n) -> y = x.
Proof. induction n as [|n IH]; cbn; [intros [] | intros [<-|H]; auto]. Qed.

(** X20. [OvnNbctl.ls_port_add] executes the same [lsp_add] command,
    with [may_exist] set, between one and [MAX_RETRY] times, and fails
    with [UUIDTransactionError] only after [MAX_RETRY] executions.  A
    router port overrides the addresses: the port is then of type
    router and never gets port security, whatever [mac], [ip] and
    [security] are; without one, [port_security] is set only when
    [security] is, and always to the value of [addresses].  The handle
    returned is built from the arguments alone: its address is
    [unknown] exactly for a localnet port, whether or not an address
    was passed. *)
Theorem ls_port_add_columns_and_handle
        (lswitch : OvnNbctl.LSwitch) (name : string)
        (router_port : option OvnNbctl.LRPort) (mac : option string)
        (ip gw ext_gw : option DualStackIP) (metadata : option Z)
        (passive security localnet : bool) (w : World) :
  let columns :=
    OvnNbctl.lsp_columns str_v6 router_port mac ip security localnet in
  let r := OvnNbctl.ls_port_add str_v6 World execute lswitch name router_port
                                mac ip gw ext_gw metadata passive security
                                localnet w in
  let tr := snd (fst r) in
  (1 <= length tr <= MAX_RETRY)%nat /\
  (forall c, In c tr ->
             c = OvnNbctl.LspAdd (OvnNbctl.ls_uuid lswitch) name true columns) /\
  (forall e, snd r = Raise e ->
             e = UUIDTransactionError /\ length tr = MAX_RETRY) /\
  (forall port, snd r = Ok port ->
     lsp_name port = name /\ lsp_mac port = mac /\
     lsp_metadata port = metadata /\ lsp_passive port = passive /\
     (lsp_ip port = Unknown <-> localnet = true) /\
     lsp_ip6 port = OvnNbctl.addr_of ip ip6) /\
  (forall rp, router_port = Some rp ->
     In ("type", OvnNbctl.ColStr "router") columns /\
     (forall c, In ("addresses", c) columns -> c = OvnNbctl.ColStr "router") /\
     (forall c, ~ In ("port_security", c) columns)) /\
  (router_port = None ->
   (forall c, ~ In ("type", c) columns) /\
   (forall c, In ("port_security", c) columns ->
              security = true /\ In ("addresses", c) columns) /\
   (security = true ->
    forall c, In ("addresses", c) columns -> In ("port_security", c) columns)).
Proof.
  intros columns r tr.
  assert (Hrun :
    exists w' j res,
      r = (w', repeat (OvnNbctl.LspAdd (OvnNbctl.ls_uuid lswitch) name true
                                       columns) j, res) /\
      (1 <= j <= MAX_RETRY)%nat /\
      (forall e, res = Raise e -> e = UUIDTransactionError /\ j = MAX_RETRY) /\
      (forall port, res = Ok port ->
         exists uuid,
           port = mkLSPort name mac
                    (if localnet then Unknown else OvnNbctl.addr_of ip ip4)
                    (match ip with Some d => plen4 d | None => None end)
                    (OvnNbctl.addr_of gw ip4) (OvnNbctl.addr_of ext_gw ip4)
                    (OvnNbctl.addr_of ip ip6)
                    (match ip with Some d => plen6 d | None => None end)
                    (OvnNbctl.addr_of gw ip6) (OvnNbctl.addr_of ext_gw ip6)
                    metadata passive uuid)).
  { subst r. unfold OvnNbctl.ls_port_add. fold columns.
    unfold uuid_transaction.
    destruct (uuid_transaction_loop execute MAX_RETRY
                (fun may_exist =>
                   OvnNbctl.LspAdd (OvnNbctl.ls_uuid lswitch) name may_exist
                                   columns) w [])
      as [[w' tr0] [uuid|e]] eqn:E;
      apply uuid_transaction_loop_spec in E;
      destruct E as (j & outcomes & Hj & -> & _ & Hres); cbn [app].
    - destruct Hres as (k & -> & _).
      exists w', (S k). eexists. split; [reflexivity|].
      split; [lia|]. split; [intros e [=]|].
      intros port [= <-]. exists uuid. reflexivity.
    - destruct Hres as (-> & -> & _).
      exists w', MAX_RETRY, (Raise UUIDTransactionError).
      split; [reflexivity|].
      split; [unfold MAX_RETRY; lia|].
      split; [intros e [= <-]; auto | intros port [=]]. }
  destruct Hrun as (w' & j & res & Hr & Hj & Hraise & Hok).
  subst tr. rewrite Hr. cbn [fst snd]. rewrite repeat_length.
  split; [exact Hj|].
  split; [intros c Hc; apply In_repeat in Hc; exact Hc|].
  split; [exact Hraise|].
  split.
  { intros port Hp. destruct (Hok port Hp) as (uuid & ->). cbn.
    repeat split; auto.
    - destruct localnet; [reflexivity|].
      unfold OvnNbctl.addr_of. destruct ip as [d|]; [|discriminate].
      destruct (ip4 d); discriminate.
    - intros ->. reflexivity. }
  split.
  - intros rp ->. subst columns. cbn.
    split; [auto|]. split.
    + intros c [H|[H|[H|[]]]]; inversion H. reflexivity.
    + intros c [H|[H|[H|[]]]]; inversion H.
  - intros ->. subst columns. unfold OvnNbctl.lsp_columns.
    destruct (truthy mac || OvnNbctl.obj_true ip || localnet);
      [|cbn; repeat split; try tauto; intros c []].
    destruct security; cbn.
    + split; [intros c [H|[H|[]]]; inversion H|].
      split.
      * intros c [H|[H|[]]]; inversion H. auto.
      * intros _ c [H|[H|[]]]; inversion H. auto.
    + split; [intros c [H|[]]; inversion H|].
      split; [intros c [H|[]]; inversion H | discriminate].
Qed.
End SwitchPortFacts.

(** The join switch's port to the cluster router, against an NB that
    returns the UUID at the third execution only: the port is of type
    router even with a MAC given, and at most [MAX_RETRY] commands are
    executed. *)
Lemma ls_port_add_columns_and_handle_witness :
  let rp := OvnNbctl.mkLRPort "rtr-to-join" "02:00:00:00:00:01"
                              (mkDualStackIP None None None None) in
  let execute := fun (_ : OvnNbctl.NbCmd) (n : nat) =>
                   (S n, if (n <? 2)%nat then None else Some 7%N) in
  In ("type", OvnNbctl.ColStr "router")
     (OvnNbctl.lsp_columns (fun _ => "") (Some rp)
                           (Some "02:00:00:00:00:02") None true false) /\
  (1 <= length (snd (fst (OvnNbctl.ls_port_add
                            (fun _ => "") nat execute
                            (OvnNbctl.mkLSwitch 1%N "ls-join" None None)
                            "join-to-rtr" (Some rp)
                            (Some "02:00:00:00:00:02") None None None None
                            false true false 0%nat)))
   <= MAX_RETRY)%nat.
Proof.
  intros rp execute.
  destruct (ls_port_add_columns_and_handle
              (fun _ => "") nat execute
              (OvnNbctl.mkLSwitch 1%N "ls-join" None None) "join-to-rtr"
              (Some rp) (Some "02:00:00:00:00:02") None None None None
              false true false 0%nat) as (Hlen & _ & _ & _ & H & _).
  destruct (H rp eq_refl) as (Htype & _ & _).
  split; [exact Htype | exact Hlen].
Defined.

(** ** Adding a router port *)

(** X21. [OvnNbctl.lr_port_add] cannot be called with its default
    [dual_ip]: reading the address of [None] raises [AttributeError]
    before any command is executed.  With a dual-stack address it
    executes one [lrp_add] whose networks are the [address/length] of
    each family that has both a non-zero address and a non-zero prefix
    length, IPv4 first; a family with the address 0 or the length 0 is
    left out of the command, yet the handle returned carries the
    address as given. *)
Theorem lr_port_add_networks
        (str_v6 : Z -> string) (router : OvnNbctl.LRouter) (name mac : string) :
  OvnNbctl.lr_port_add str_v6 router name mac None = Raise AttributeError /\
  forall d,
    exists nets,
      OvnNbctl.lr_port_add str_v6 router name mac (Some d)
      = Ok (OvnNbctl.LrpAdd (OvnNbctl.lr_uuid router) name mac nets,
            OvnNbctl.mkLRPort name mac d) /\
      (length nets <= 2)%nat /\
      (forall a l, ip4 d = Some a -> plen4 d = Some l ->
                   ip_value a <> 0 -> l <> 0 ->
                   hd_error nets = Some (OvnNbctl.cidr str_v6 a l)) /\
      (forall a l, ip6 d = Some a -> plen6 d = Some l ->
                   ip_value a <> 0 -> l <> 0 ->
                   List.last nets "" = OvnNbctl.cidr str_v6 a l) /\
      (forall s, In s nets ->
         exists a l,
           s = OvnNbctl.cidr str_v6 a l /\ ip_value a <> 0 /\ l <> 0 /\
           ((ip4 d = Some a /\ plen4 d = Some l) \/
            (ip6 d = Some a /\ plen6 d = Some l))).
Proof.
  split; [reflexivity|]. intros d.
  exists (OvnNbctl.lrp_networks str_v6 d). split; [reflexivity|].
  unfold OvnNbctl.lrp_networks, OvnNbctl.ip_true, OvnNbctl.int_true.
  destruct (ip4 d) as [a4|], (plen4 d) as [l4|],
           (ip6 d) as [a6|], (plen6 d) as [l6|];
    repeat match goal with
           | |- context [?x =? 0] => destruct (Z.eqb_spec x 0)
           end;
    cbn [negb andb app length hd_error List.last];
    (split; [lia|]);
    (split; [intros a l [= <-] [= <-] Ha Hl;
             try reflexivity; try contradiction; try discriminate|]);
    (split; [intros a l Ha' Hl'; try discriminate;
             injection Ha' as <-; injection Hl' as <-; intros Ha Hl;
             try reflexivity; try contradiction|]);
    intros s Hin; cbn in Hin;
    repeat (destruct Hin as [<-|Hin]; [eauto 10|]); contradiction.
Qed.

(** The cluster router's port to the join switch at 100.64.0.1/16, with
    no IPv6 side. *)
Lemma lr_port_add_networks_witness :
  let d := mkDualStackIP (Some (mkIP V4 (100 * 2 ^ 24 + 64 * 2 ^ 16 + 1)))
                         (Some 16) None None in
  exists nets,
    OvnNbctl.lr_port_add (fun _ => "") (OvnNbctl.mkLRouter 1%N "lr-cluster")
                         "rtr-to-join" "02:00:00:00:00:01" (Some d)
    = Ok (OvnNbctl.LrpAdd 1%N "rtr-to-join" "02:00:00:00:00:01" nets,
          OvnNbctl.mkLRPort "rtr-to-join" "02:00:00:00:00:01" d) /\
    hd_error nets
    = Some (OvnNbctl.cidr (fun _ => "")
                          (mkIP V4 (100 * 2 ^ 24 + 64 * 2 ^ 16 + 1)) 16).
Proof.
  intros d.
  destruct (lr_port_add_networks (fun _ => "")
              (OvnNbctl.mkLRouter 1%N "lr-cluster")
              "rtr-to-join" "02:00:00:00:00:01") as [_ H].
  destruct (H d) as (nets & E & _ & H4 & _).
  exists nets. split; [exact E|].
  apply H4; [reflexivity | reflexivity | discriminate | discriminate].
Defined.
